(** * SwiftNote: the note repository, the tag index and the query pipeline

    A shallow embedding of
      - [src/services/notes.ts]        (the note repository),
      - [src/app/(tabs)/_layout.tsx]   ([calculateTagUsage], [sortNotes],
                                        [filterByDate], [applyFiltersAndSort]),
    together with the properties the design document states about them. *)

From Stdlib Require Import ZArith String Ascii List Lia Sorting.Sorted.
From stdpp Require Import gmap strings list sorting pretty.

Local Open Scope string_scope.

(** ** The note record ([src/services/notes.ts], [type Note]) *)

(** Time stamps are ISO strings, [tags] and [deleted_at] may be [null]. *)
Record Note := mkNote {
  id : string;
  title : string;
  body : string;
  tags : option (list string);
  created_at : string;
  updated_at : string;
  deleted_at : option string;
}.

#[global] Instance Note_eq_dec : EqDecision Note.
Proof. solve_decision. Defined.

(** ** What the JavaScript engine provides

    The built-ins the code calls are not part of the repository; they are
    taken as an interface.  A JavaScript number that may be [NaN] is an
    [option Z], [None] standing for [NaN]. *)
Class Engine := {
  (** [new Date(s).getTime()] *)
  Date_parse : string → option Z;
  (** [new Date(d.getFullYear(), d.getMonth(), d.getDate()).getTime()] for
      the date [d] whose time value is the argument: local midnight. *)
  startOfLocalDay : Z → Z;
  (** [String.prototype.toLowerCase], [trim], [localeCompare] *)
  toLowerCase : string → string;
  trim : string → string;
  localeCompare : string → string → Z;
  (** The members every object inherits from [Object.prototype]: for the
      name of one, the text it converts to under [+]; [None] for any
      other name. *)
  Object_prototype : string → option string;
}.

(** ** Tag index: [calculateTagUsage] *)

Module TagIndex.

(** The values a property of the [tagUsage] object can hold. *)
Inductive value :=
| VNum (n : Z)
| VStr (s : string).

#[global] Instance value_eq_dec : EqDecision value.
Proof. solve_decision. Defined.

Section WithEngine.
Context `{Engine}.

(** [tagUsage[tag] || 0]: an own property wins, then an inherited
    member, else [undefined]; falsy values give [0]. *)
Definition get_or_zero (tagUsage : gmap string value) (tag : string)
  : value :=
  match tagUsage !! tag with
  | Some (VNum n) => VNum n          (* [0 || 0] is [0] as well *)
  | Some (VStr s) => if decide (s = "") then VNum 0 else VStr s
  | None =>
      match Object_prototype tag with
      | Some text => VStr text
      | None => VNum 0
      end
  end.

(** [v + 1]: addition on numbers, concatenation otherwise. *)
Definition plus_one (v : value) : value :=
  match v with
  | VNum n => VNum (n + 1)
  | VStr s => VStr (s ++ "1")
  end.

(** [tagUsage[tag] = v]; assigning a primitive to [__proto__] is
    ignored by the inherited setter. *)
Definition set_property (tagUsage : gmap string value) (tag : string)
    (v : value) : gmap string value :=
  if decide (tag = "__proto__") then tagUsage else <[tag := v]> tagUsage.

(** The body of the inner [forEach]. *)
Definition count_tag (tagUsage : gmap string value) (tag : string)
  : gmap string value :=
  set_property tagUsage tag (plus_one (get_or_zero tagUsage tag)).

(** The body of the outer [forEach]:
    [if (note.tags && Array.isArray(note.tags))]. *)
Definition count_note (tagUsage : gmap string value) (note : Note)
  : gmap string value :=
  match tags note with
  | Some ts => fold_left count_tag ts tagUsage
  | None => tagUsage
  end.

Definition calculateTagUsage (notes : list Note) : gmap string value :=
  fold_left count_note notes ∅.

End WithEngine.

(** Reading of the design's words: the number of notes carrying [tag]. *)
Definition carries (tag : string) (note : Note) : bool :=
  match tags note with
  | Some ts => bool_decide (tag ∈ ts)
  | None => false
  end.

Definition notes_carrying (tag : string) (notes : list Note) : Z :=
  Z.of_nat (length (filter (λ n, carries tag n = true) notes)).

(** The number of times [tag] is written in the tag lists of [notes]. *)
Definition occurrences_in (tag : string) (note : Note) : Z :=
  match tags note with
  | Some ts => Z.of_nat (count_occ string_dec ts tag)
  | None => 0
  end.

Fixpoint occurrences (tag : string) (notes : list Note) : Z :=
  match notes with
  | [] => 0
  | n :: rest => occurrences_in tag n + occurrences tag rest
  end.

(** A tag that is not the name of an inherited member. *)
Definition plain `{Engine} (tag : string) : Prop :=
  Object_prototype tag = None ∧ tag ≠ "__proto__".

Definition tags_of (note : Note) : list string := default [] (tags note).

Definition plain_tags `{Engine} (notes : list Note) : Prop :=
  Forall (λ n, Forall plain (tags_of n)) notes.

(** No note writes a tag twice. *)
Definition distinct_tags (notes : list Note) : Prop :=
  Forall (λ n, NoDup (tags_of n)) notes.

(** How a count shows in the object: no property for zero. *)
Definition shown (count : Z) : option value :=
  if decide (count = 0%Z) then None else Some (VNum count).

(** The notes of the scenario
    [tagUsage([{tags:["a","a","b"]}, {tags:["b"]}])]. *)
Definition tagged (ts : option (list string)) : Note :=
  {| id := ""; title := ""; body := ""; tags := ts;
     created_at := ""; updated_at := ""; deleted_at := None |}.

Definition scenario : list Note :=
  [tagged (Some ["a"; "a"; "b"]); tagged (Some ["b"])].

End TagIndex.

(** ** Query pipeline: [sortNotes], [filterByDate], [applyFiltersAndSort] *)

Module Pipeline.

(** [src/components/FilterModal.tsx] *)
Inductive SortOption := recent | alphabetical | mostEdited | oldest.
Inductive DateFilter := all | today | thisWeek | thisMonth.

Record FilterOptions := mkFilters {
  sortBy : SortOption;
  dateFilter : DateFilter;
  selectedTags : list string;
  withTagsOnly : bool;
  longNotesOnly : bool;
}.

(** *** Arrays as shared mutable objects

    An array is known by its reference; the heap gives its elements.
    [filter] and the spread [[...a]] allocate, [sort] writes in place. *)
Definition ref := nat.
Definition M (A : Type) : Type := gmap nat (list Note) → A * gmap nat (list Note).

Definition ret {A} (a : A) : M A := λ h, (a, h).
Definition bind {A B} (m : M A) (k : A → M B) : M B :=
  λ h, let (a, h') := m h in k a h'.

#[global] Instance M_ret : MRet M := @ret.
#[global] Instance M_bind : MBind M := λ A B k m, bind m k.

Definition elements (a : ref) (h : gmap nat (list Note)) : list Note :=
  default [] (h !! a).

Definition alloc (l : list Note) : M ref :=
  λ h, let a := fresh (dom h) in (a, <[a := l]> h).

(** [a.filter(p)] *)
Definition Array_filter (p : Note → bool) (a : ref) : M ref :=
  λ h, alloc (List.filter p (elements a h)) h.

(** [[...a]] *)
Definition Array_spread (a : ref) : M ref :=
  λ h, alloc (elements a h) h.

(** The stable sort by a comparator: [x] moves behind [y] only when
    [cmp x y > 0].  It is what [a.sort(cmp)] gives for a consistent
    comparator (see [Sorter] below). *)
Definition behind (cmp : Note → Note → option Z) (x y : Note) : bool :=
  match cmp x y with
  | Some v => (0 <? v)%Z
  | None => false
  end.

Fixpoint insert_by (cmp : Note → Note → option Z) (x : Note)
    (l : list Note) : list Note :=
  match l with
  | [] => [x]
  | y :: l' => if behind cmp x y then y :: insert_by cmp x l' else x :: l
  end.

Definition sorted_by (cmp : Note → Note → option Z) (l : list Note)
  : list Note :=
  foldr (insert_by cmp) [] l.

(** A comparator that orders the notes of [l] by a rank: on them it never
    returns [NaN] and its sign is the sign of the difference of the ranks.
    Such a comparator is a consistent comparator for [l]. *)
Definition ranked_by (k : Note → Z) (cmp : Note → Note → option Z)
    (l : list Note) : Prop :=
  ∀ x y, x ∈ l → y ∈ l →
    ∃ v, cmp x y = Some v ∧ Z.sgn v = Z.sgn (k x - k y).

(** [Array.prototype.sort] of the engine, on the elements.  It rearranges
    the array; for a consistent comparator the result is the stable sort;
    for any other comparator (one that returns [NaN] on some pair, say)
    the order is the engine's own and nothing more is known of it. *)
Class Sorter := {
  Array_prototype_sort :
    (Note → Note → option Z) → list Note → list Note;
  sort_permutes : ∀ cmp l, Array_prototype_sort cmp l ≡ₚ l;
  sort_consistent :
    ∀ k cmp l, ranked_by k cmp l →
      Array_prototype_sort cmp l = sorted_by cmp l;
}.

(** [a.sort(cmp)]: in place. *)
Definition Array_sort `{Sorter} (cmp : Note → Note → option Z) (a : ref)
  : M ref :=
  λ h, (a, <[a := Array_prototype_sort cmp (elements a h)]> h).

(** [x - y] on numbers: [NaN] if either is.  Only the sign is used. *)
Definition minus (x y : option Z) : option Z :=
  match x, y with
  | Some a, Some b => Some (a - b)%Z
  | _, _ => None
  end.

(** [x >= y] on a date and a valid date: false when [x] is invalid. *)
Definition at_or_after (x : option Z) (y : Z) : bool :=
  match x with
  | Some t => (y <=? t)%Z
  | None => false
  end.

(** [s.includes(q)] *)
Fixpoint includes (s q : string) : bool :=
  String.prefix q s ||
  match s with
  | EmptyString => false
  | String _ s' => includes s' q
  end.

(** A string in a condition: true unless empty. *)
Definition truthy (s : string) : bool := negb (String.eqb s "").

Section WithEngine.
Context `{Engine} `{Sorter}.

Definition by_updated_desc (a b : Note) : option Z :=
  minus (Date_parse (updated_at b)) (Date_parse (updated_at a)).

Definition by_title (a b : Note) : option Z :=
  Some (localeCompare (title a) (title b)).

Definition by_created_asc (a b : Note) : option Z :=
  minus (Date_parse (created_at a)) (Date_parse (created_at b)).

(** [sortNotes]; the [default] branch is unreachable for a
    [SortOption]. *)
Definition sortNotes (notesToSort : ref) (sortBy : SortOption) : M ref :=
  sorted ← Array_spread notesToSort;
  match sortBy with
  | recent => Array_sort by_updated_desc sorted
  | alphabetical => Array_sort by_title sorted
  | mostEdited => Array_sort by_updated_desc sorted
  | oldest => Array_sort by_created_asc sorted
  end.

(** The callback of [filterByDate]; [now] is the time value of
    [new Date()].  As in the source, [today] names both the option (in the
    patterns) and local midnight (in the bodies). *)
Definition createdWithin (now : Z) (dateFilter : DateFilter)
    (note : Note) : bool :=
  let today := startOfLocalDay now in
  let noteDate := Date_parse (created_at note) in
  match dateFilter with
  | today => at_or_after noteDate today
  | thisWeek =>
      let weekAgo := (today - 7 * 24 * 60 * 60 * 1000)%Z in
      at_or_after noteDate weekAgo
  | thisMonth =>
      let monthAgo := (today - 30 * 24 * 60 * 60 * 1000)%Z in
      at_or_after noteDate monthAgo
  | all => true
  end.

Definition filterByDate (now : Z) (notesToFilter : ref)
    (dateFilter : DateFilter) : M ref :=
  match dateFilter with
  | all => ret notesToFilter
  | _ => Array_filter (createdWithin now dateFilter) notesToFilter
  end.

(** The callbacks of [applyFiltersAndSort]. *)
Definition matchesSearch (searchQuery : string) (note : Note) : bool :=
  includes (toLowerCase (title note)) (toLowerCase searchQuery) ||
  (truthy (body note) &&
   includes (toLowerCase (body note)) (toLowerCase searchQuery)).

Definition hasSelectedTag (selected : list string) (note : Note) : bool :=
  match tags note with
  | Some ts => existsb (λ tag, bool_decide (tag ∈ ts)) selected
  | None => false
  end.

Definition hasTags (note : Note) : bool :=
  match tags note with
  | Some ts => (0 <? length ts)%nat
  | None => false
  end.

Definition isLong (note : Note) : bool :=
  truthy (body note) && (100 <=? String.length (body note))%nat.

(** [applyFiltersAndSort]: [notes], [searchQuery] and [filters] are the
    component's state; the result is the array handed to
    [setFilteredNotes]. *)
Definition applyFiltersAndSort (now : Z) (notes : ref)
    (searchQuery : string) (filters : FilterOptions) : M ref :=
  let filtered := notes in
  filtered ← if truthy (trim searchQuery)
              then Array_filter (matchesSearch searchQuery) filtered
              else ret filtered;
  filtered ← filterByDate now filtered (dateFilter filters);
  filtered ← if (0 <? length (selectedTags filters))%nat
              then Array_filter (hasSelectedTag (selectedTags filters))
                     filtered
              else ret filtered;
  filtered ← if withTagsOnly filters
              then Array_filter hasTags filtered
              else ret filtered;
  filtered ← if longNotesOnly filters
              then Array_filter isLong filtered
              else ret filtered;
  sortNotes filtered (sortBy filters).

(** What the pipeline computes on the elements: the list the output
    array holds (proved below). *)
Definition comparator (sortBy : SortOption) : Note → Note → option Z :=
  match sortBy with
  | recent | mostEdited => by_updated_desc
  | alphabetical => by_title
  | oldest => by_created_asc
  end.

(** The filters other than the date filter. *)
Definition keeps (searchQuery : string) (filters : FilterOptions)
    (note : Note) : bool :=
  (if truthy (trim searchQuery) then matchesSearch searchQuery note
   else true) &&
  (if (0 <? length (selectedTags filters))%nat
   then hasSelectedTag (selectedTags filters) note else true) &&
  (if withTagsOnly filters then hasTags note else true) &&
  (if longNotesOnly filters then isLong note else true).

Definition selects (now : Z) (searchQuery : string)
    (filters : FilterOptions) (note : Note) : bool :=
  createdWithin now (dateFilter filters) note &&
  keeps searchQuery filters note.

(** Words of the design: created at or after the instant [bound]. *)
Definition created_since (bound : Z) (note : Note) : Prop :=
  ∃ t, Date_parse (created_at note) = Some t ∧ (bound ≤ t)%Z.

Definition malformed (note : Note) : Prop :=
  Date_parse (created_at note) = None.

End WithEngine.

(** The same criteria with another sort option. *)
Definition with_sort (s : SortOption) (f : FilterOptions) : FilterOptions :=
  {| sortBy := s; dateFilter := dateFilter f;
     selectedTags := selectedTags f; withTagsOnly := withTagsOnly f;
     longNotesOnly := longNotesOnly f |}.

Definition hour : Z := (60 * 60 * 1000)%Z.

(** The list held by the array a run returns. *)
Definition output (m : M ref) (h : gmap nat (list Note)) : list Note :=
  let '(r, h') := m h in elements r h'.

Definition heap_after (m : M ref) (h : gmap nat (list Note))
  : gmap nat (list Note) :=
  snd (m h).

End Pipeline.

(** ** The persistence service *)

Module Store.

(** The error object of a response; [code] and [message] are the fields
    [src/services/notes.ts] reads. *)
Record PostgrestError := mkPgError {
  code : string;
  message : string;
}.

Inductive Response (A : Type) :=
| Success (data : A)
| Failure (error : PostgrestError).
Arguments Success {A} data.
Arguments Failure {A} error.

(** The filters the repository writes: [.eq('id', v)],
    [.is('deleted_at', null)], and [.is('deleted_at', v)] with a string
    [v], which the client sends as it stands: [deleted_at=is.v]
    ([is.not.null] for the string ['not.null']). *)
Inductive Filter :=
| eq_id (v : string)
| deleted_at_is_null
| deleted_at_is (operand : string).

(** The service reads [is.null]; [not.null] is no operand of its [is],
    which takes [null] or a truth value (the negated filter is another
    one, [not.is.null], which the repository never writes).  The
    repository writes no other operand; here a request with any operand
    but [null] is answered with an error. *)
Definition accepted (f : Filter) : bool :=
  match f with
  | eq_id _ => true
  | deleted_at_is_null => true
  | deleted_at_is operand => String.eqb operand "null"
  end.

(** Whether a row passes a filter; [is] with the operand [null] reads as
    [.is('deleted_at', null)], and a request whose filters are not all
    accepted is never evaluated. *)
Definition holds (f : Filter) (n : Note) : bool :=
  match f with
  | eq_id v => String.eqb (id n) v
  | deleted_at_is_null => bool_decide (deleted_at n = None)
  | deleted_at_is _ => bool_decide (deleted_at n = None)
  end.

Definition matching (fs : list Filter) (n : Note) : bool :=
  forallb (λ f, holds f n) fs.

(** The columns the repository orders by, always descending. *)
Inductive Column := col_updated_at | col_deleted_at.

(** The instant a stored time stamp denotes, as the service orders them. *)
Class Service := { instant : string → Z }.

Definition key `{Service} (c : Column) (n : Note) : option Z :=
  match c with
  | col_updated_at => Some (instant (updated_at n))
  | col_deleted_at => instant <$> deleted_at n
  end.

(** Descending order, nulls first. *)
Definition desc `{Service} (c : Column) : relation Note :=
  λ a b,
    match key c a, key c b with
    | None, _ => True
    | Some _, None => False
    | Some x, Some y => (y ≤ x)%Z
    end.

#[global] Instance desc_dec `{Service} c a b : Decision (desc c a b).
Proof. unfold desc. destruct (key c a), (key c b); apply _. Defined.

(** A partial update: [Some v] sets the column. *)
Record Patch := mkPatch {
  set_title : option string;
  set_body : option string;
  set_tags : option (option (list string));
  set_deleted_at : option (option string);
}.

(** The record [createNote] sends. *)
Record Payload := mkPayload {
  new_title : string;
  new_body : string;
  new_tags : option (list string);
  new_deleted_at : option string;
}.

(** One round trip: whether the service fails on it (unreachable, or an
    unexpected error), what its clock reads, which id it would assign. *)
Record RoundTrip := mkRoundTrip {
  fault : option PostgrestError;
  clock : string;
  generated_id : string;
}.

(** Modelled from the spec: the error of [.single()] when the result is
    not exactly one row, which lets the repository tell "not found" from a
    service failure; the code is the one the repository tests for. *)
Definition no_single_row : PostgrestError :=
  {| code := "PGRST116";
     message := "JSON object requested, multiple (or no) rows returned" |}.

(** The error for a filter the service cannot parse; the message stands
    for the service's own, which quotes the filter. *)
Definition unparsable_filter : PostgrestError :=
  {| code := "PGRST100"; message := "failed to parse filter" |}.

Definition duplicate_key : PostgrestError :=
  {| code := "23505";
     message := "duplicate key value violates unique constraint" |}.

(** Modelled from the spec: [.single()] asks for exactly one record. *)
Definition single (l : list Note) : Response Note :=
  match l with
  | [n] => Success n
  | _ => Failure no_single_row
  end.

(** Modelled from the spec: the persistence service is not part of the
    sources.  [select(filter, order)] reads the matching records in the
    given order. *)
Definition select `{Service} (rt : RoundTrip) (fs : list Filter)
    (c : Column) (rows : list Note) : Response (option (list Note)) :=
  match fault rt with
  | Some e => Failure e
  | None =>
      if forallb accepted fs
      then Success (Some (merge_sort (desc c)
                            (List.filter (matching fs) rows)))
      else Failure unparsable_filter
  end.

(** Modelled from the spec: [select(filter)] for a single record. *)
Definition select_single (rt : RoundTrip) (fs : list Filter)
    (rows : list Note) : Response Note :=
  match fault rt with
  | Some e => Failure e
  | None =>
      if forallb accepted fs
      then single (List.filter (matching fs) rows)
      else Failure unparsable_filter
  end.

(** [updateWhere(filter, patch)] applies a partial update to the matching
    records: the columns of the patch and no other.  The table of the
    README ([updated_at TIMESTAMP WITH TIME ZONE DEFAULT NOW()], no
    trigger) gives [updated_at] a value on insert only. *)
Definition apply_patch (rt : RoundTrip) (p : Patch) (n : Note) : Note :=
  {| id := id n;
     title := default (title n) (set_title p);
     body := default (body n) (set_body p);
     tags := default (tags n) (set_tags p);
     created_at := created_at n;
     updated_at := updated_at n;
     deleted_at := default (deleted_at n) (set_deleted_at p) |}.

(** Modelled from the spec: the table after [updateWhere(filter, patch)]. *)
Definition patch_where (rt : RoundTrip) (p : Patch) (fs : list Filter)
    (rows : list Note) : list Note :=
  map (λ n, if matching fs n then apply_patch rt p n else n) rows.

(** Modelled from the spec: [updateWhere] without reading the result
    back; matching no record is not an error. *)
Definition update (rt : RoundTrip) (p : Patch) (fs : list Filter)
    (rows : list Note) : Response unit * list Note :=
  match fault rt with
  | Some e => (Failure e, rows)
  | None =>
      if forallb accepted fs
      then (Success tt, patch_where rt p fs rows)
      else (Failure unparsable_filter, rows)
  end.

(** Modelled from the spec: [updateWhere] returning the updated record,
    [.update(p)...select().single()]: the record when exactly one matched;
    otherwise the error and no change. *)
Definition update_single (rt : RoundTrip) (p : Patch) (fs : list Filter)
    (rows : list Note) : Response Note * list Note :=
  match fault rt with
  | Some e => (Failure e, rows)
  | None =>
      if forallb accepted fs
      then
        match single (map (apply_patch rt p)
                        (List.filter (matching fs) rows)) with
        | Success n => (Success n, patch_where rt p fs rows)
        | Failure e => (Failure e, rows)
        end
      else (Failure unparsable_filter, rows)
  end.

(** Modelled from the spec: [insert(record)] creates one record and
    returns it with generated id and time stamps. *)
Definition insert_single (rt : RoundTrip) (p : Payload)
    (rows : list Note) : Response Note * list Note :=
  match fault rt with
  | Some e => (Failure e, rows)
  | None =>
      if bool_decide (generated_id rt ∈ map id rows)
      then (Failure duplicate_key, rows)
      else
        let n := {| id := generated_id rt;
                    title := new_title p;
                    body := new_body p;
                    tags := new_tags p;
                    created_at := clock rt;
                    updated_at := clock rt;
                    deleted_at := new_deleted_at p |} in
        (Success n, (rows ++ [n])%list)
  end.

End Store.

(** ** Note repository ([src/services/notes.ts]) *)

Module Repository.
Import Store.

(** [throw new Error(message)] *)
Inductive exn := Error (message : string).

Inductive outcome (A : Type) :=
| Returned (a : A)
| Thrown (e : exn).
Arguments Returned {A} a.
Arguments Thrown {A} e.

(** An operation on the table of notes. *)
Definition Repo (A : Type) : Type := list Note → outcome A * list Note.

(** The failures the design names, as the errors the code throws. *)
Definition NotFoundError : exn := Error "Note not found".
Definition IdRequired : exn := Error "Note ID is required".
Definition TitleRequired : exn := Error "Title is required".
Definition TitleEmpty : exn := Error "Title cannot be empty".

Definition ValidationError (e : exn) : Prop :=
  e = IdRequired ∨ e = TitleRequired ∨ e = TitleEmpty.

(** [!id]: the id is absent at run time ([None]) or the empty string. *)
Definition missing (id : option string) : bool :=
  match id with
  | None => true
  | Some s => String.eqb s ""
  end.

(** [error.message || fallback] *)
Definition message_or (e : PostgrestError) (fallback : string) : string :=
  if String.eqb (message e) "" then fallback else message e.

(** The argument of [.eq('id', id)], reached only past the guard. *)
Definition id_value (id : option string) : string := default "" id.

Definition listNotes `{Service} (rt : RoundTrip) : Repo (list Note) :=
  λ rows,
    match select rt [deleted_at_is_null] col_updated_at rows with
    | Failure error =>
        (Thrown (Error (message_or error "Failed to fetch notes")), rows)
    | Success data => (Returned (default [] data), rows)
    end.

Definition getNote (rt : RoundTrip) (id : option string) : Repo Note :=
  λ rows,
    if missing id then (Thrown (Error "Note ID is required"), rows)
    else
      match select_single rt [eq_id (id_value id); deleted_at_is_null] rows
      with
      | Failure error =>
          if String.eqb (code error) "PGRST116"
          then (Thrown (Error "Note not found"), rows)
          else (Thrown (Error (message_or error "Failed to fetch note")), rows)
      | Success data => (Returned data, rows)
      end.

(** [input.tags ?? null]: an absent and a [null] list are both [None]. *)
Record CreateInput := mkCreateInput {
  in_title : string;
  in_body : string;
  in_tags : option (list string);
}.

Definition createNote `{Engine} (rt : RoundTrip) (input : CreateInput)
  : Repo Note :=
  λ rows,
    let payload := {| new_title := trim (in_title input);
                      new_body := trim (in_body input);
                      new_tags := in_tags input;
                      new_deleted_at := None |} in
    if String.eqb (new_title payload) ""
    then (Thrown (Error "Title is required"), rows)
    else
      match insert_single rt payload rows with
      | (Failure error, rows') =>
          (Thrown (Error (message_or error "Failed to create note")), rows')
      | (Success data, rows') => (Returned data, rows')
      end.

(** [Partial<Pick<Note, 'title' | 'body' | 'tags'>>]: [None] is
    [undefined]. *)
Record NotePatch := mkNotePatch {
  patch_title : option string;
  patch_body : option string;
  patch_tags : option (option (list string));
}.

Definition updateNote `{Engine} (rt : RoundTrip) (id : option string)
    (patch : NotePatch) : Repo Note :=
  λ rows,
    if missing id then (Thrown (Error "Note ID is required"), rows)
    else
      let updateData := {| set_title := trim <$> patch_title patch;
                           set_body := trim <$> patch_body patch;
                           set_tags := patch_tags patch;
                           set_deleted_at := None |} in
      if bool_decide (set_title updateData = Some "")
      then (Thrown (Error "Title cannot be empty"), rows)
      else
        match update_single rt updateData
                [eq_id (id_value id); deleted_at_is_null] rows with
        | (Failure error, rows') =>
            if String.eqb (code error) "PGRST116"
            then (Thrown (Error "Note not found"), rows')
            else (Thrown (Error (message_or error "Failed to update note")),
                  rows')
        | (Success data, rows') => (Returned data, rows')
        end.

(** [deleteNote]; [now] is [new Date().toISOString()]. *)
Definition deleteNote (rt : RoundTrip) (now : string) (id : option string)
  : Repo bool :=
  λ rows,
    if missing id then (Thrown (Error "Note ID is required"), rows)
    else
      match update rt {| set_title := None; set_body := None;
                         set_tags := None; set_deleted_at := Some (Some now) |}
              [eq_id (id_value id); deleted_at_is_null] rows with
      | (Failure error, rows') =>
          (Thrown (Error (message_or error "Failed to delete note")), rows')
      | (Success _, rows') => (Returned true, rows')
      end.

Definition restoreNote (rt : RoundTrip) (id : option string) : Repo Note :=
  λ rows,
    if missing id then (Thrown (Error "Note ID is required"), rows)
    else
      match update_single rt {| set_title := None; set_body := None;
                                set_tags := None; set_deleted_at := Some None |}
              [eq_id (id_value id); deleted_at_is "not.null"] rows with
      | (Failure error, rows') =>
          (Thrown (Error (message_or error "Failed to restore note")), rows')
      | (Success data, rows') => (Returned data, rows')
      end.

Definition listDeletedNotes `{Service} (rt : RoundTrip) : Repo (list Note) :=
  λ rows,
    match select rt [deleted_at_is "not.null"] col_deleted_at rows with
    | Failure error =>
        (Thrown (Error (message_or error "Failed to fetch deleted notes")),
         rows)
    | Success data => (Returned (default [] data), rows)
    end.

(** Words of the design. *)
Definition active (n : Note) : Prop := deleted_at n = None.

Definition with_deleted_at (d : option string) (n : Note) : Note :=
  {| id := id n; title := title n; body := body n; tags := tags n;
     created_at := created_at n; updated_at := updated_at n;
     deleted_at := d |}.

(** The partial update [deleteNote] sends. *)
Definition soft_delete_patch (now : string) : Patch :=
  {| set_title := None; set_body := None; set_tags := None;
     set_deleted_at := Some (Some now) |}.

(** What a soft delete at [now] of the note with id [s] does to a row. *)
Definition soft_deleted (s now : string) (n : Note) : Note :=
  if decide (id n = s ∧ deleted_at n = None)
  then with_deleted_at (Some now) n else n.


End Repository.

(** ** An engine and a service to compute with

    A device in the UTC time zone whose [Date] reads the ECMAScript
    date-time format [YYYY-MM-DDTHH:mm:ss.sssZ] and nothing else, with
    ASCII string operations; used for the concrete runs below. *)

Module Utc.

Definition digit (c : ascii) : option Z :=
  let n := Z.of_N (N_of_ascii c) in
  if ((48 <=? n) && (n <=? 57))%Z then Some (n - 48)%Z else None.

Fixpoint number_from (acc : Z) (s : string) : option Z :=
  match s with
  | EmptyString => Some acc
  | String c s' =>
      match digit c with
      | Some d => number_from (10 * acc + d)%Z s'
      | None => None
      end
  end.

Definition field (s : string) (start len : nat) : option Z :=
  number_from 0 (String.substring start len s).

Definition has (s : string) (i : nat) (c : string) : bool :=
  String.eqb (String.substring i 1 s) c.

(** Days from 1970-01-01 to the civil date [y]-[m]-[d]. *)
Definition days_from_civil (y m d : Z) : Z :=
  let y' := (if m <=? 2 then y - 1 else y)%Z in
  let era := (y' / 400)%Z in
  let yoe := (y' - era * 400)%Z in
  let mp := ((m + 9) mod 12)%Z in
  let doy := ((153 * mp + 2) / 5 + d - 1)%Z in
  let doe := (yoe * 365 + yoe / 4 - yoe / 100 + doy)%Z in
  (era * 146097 + doe - 719468)%Z.

Definition in_range (lo x hi : Z) : bool := ((lo <=? x) && (x <=? hi))%Z.

Definition parse (s : string) : option Z :=
  if (String.length s =? 24)%nat && has s 4 "-" && has s 7 "-" &&
     has s 10 "T" && has s 13 ":" && has s 16 ":" && has s 19 "." &&
     has s 23 "Z"
  then
    match field s 0 4, field s 5 2, field s 8 2,
          field s 11 2, field s 14 2, field s 17 2, field s 20 3 with
    | Some y, Some mo, Some d, Some h, Some mi, Some sec, Some ms =>
        if in_range 1 mo 12 && in_range 1 d 31 && in_range 0 h 23 &&
           in_range 0 mi 59 && in_range 0 sec 59
        then Some ((((days_from_civil y mo d * 24 + h) * 60 + mi) * 60
                    + sec) * 1000 + ms)%Z
        else None
    | _, _, _, _, _, _, _ => None
    end
  else None.

Definition midnight (t : Z) : Z := (t - t mod 86400000)%Z.

Definition lower_char (c : ascii) : ascii :=
  let n := N_of_ascii c in
  if ((65 <=? n) && (n <=? 90))%N then ascii_of_N (n + 32) else c.

Fixpoint lower (s : string) : string :=
  match s with
  | EmptyString => EmptyString
  | String c s' => String (lower_char c) (lower s')
  end.

Definition is_space (c : ascii) : bool :=
  let n := N_of_ascii c in
  ((n =? 32) || (n =? 9) || (n =? 10) || (n =? 13))%N.

Fixpoint trim_left (s : string) : string :=
  match s with
  | EmptyString => EmptyString
  | String c s' => if is_space c then trim_left s' else s
  end.

Fixpoint trim_right (s : string) : string :=
  match s with
  | EmptyString => EmptyString
  | String c s' =>
      match trim_right s' with
      | EmptyString => if is_space c then EmptyString else String c EmptyString
      | t => String c t
      end
  end.

Definition compare_strings (a b : string) : Z :=
  match String.compare a b with
  | Lt => (-1)%Z
  | Eq => 0%Z
  | Gt => 1%Z
  end.

Definition inherited : list string :=
  [ "constructor"; "toString"; "toLocaleString"; "valueOf";
    "hasOwnProperty"; "isPrototypeOf"; "propertyIsEnumerable";
    "__defineGetter__"; "__defineSetter__"; "__lookupGetter__";
    "__lookupSetter__" ].

Definition member_text (name : string) : option string :=
  if String.eqb name "__proto__" then Some "[object Object]"
  else if String.eqb name "constructor"
       then Some "function Object() { [native code] }"
       else if bool_decide (name ∈ inherited)
            then Some ("function " ++ name ++ "() { [native code] }")
            else None.

#[global] Instance engine : Engine := {|
  Date_parse := parse;
  startOfLocalDay := midnight;
  toLowerCase := lower;
  trim := λ s, trim_right (trim_left s);
  localeCompare := compare_strings;
  Object_prototype := member_text;
|}.

(** An engine whose [sort] is the stable sort for every comparator. *)
#[global] Instance sorter : Pipeline.Sorter.
Proof.
  refine {| Pipeline.Array_prototype_sort := Pipeline.sorted_by |}.
  - intros cmp l.
    assert (Hins : ∀ x l', Pipeline.insert_by cmp x l' ≡ₚ x :: l').
    { intros x l'. induction l' as [|y l' IH]; simpl; [done |].
      destruct (Pipeline.behind cmp x y); [| done].
      rewrite IH. apply Permutation_swap. }
    induction l as [|x l IH]; simpl; [done |].
    by rewrite Hins, IH.
  - done.
Defined.

(** A service that orders time stamps as this [Date] reads them. *)
#[global] Instance service : Store.Service := {|
  Store.instant := λ s, default 0%Z (parse s);
|}.

End Utc.


(** ** Permanent deletion ([src/services/notes.ts], [permanentlyDeleteNote]) *)

Module Purge.
Import Store Repository.

(** Modelled from the spec: [deleteWhere(filter)] removes the matching
    records permanently; matching no record is not an error. *)
Definition delete (rt : RoundTrip) (fs : list Filter) (rows : list Note)
  : Response unit * list Note :=
  match fault rt with
  | Some e => (Failure e, rows)
  | None =>
      if forallb accepted fs
      then (Success tt, List.filter (λ n, negb (matching fs n)) rows)
      else (Failure unparsable_filter, rows)
  end.

Definition permanentlyDeleteNote (rt : RoundTrip) (id : option string)
  : Repo bool :=
  λ rows,
    if missing id then (Thrown (Error "Note ID is required"), rows)
    else
      match delete rt [eq_id (id_value id)] rows with
      | (Failure error, rows') =>
          (Thrown (Error (message_or error
                            "Failed to permanently delete note")), rows')
      | (Success _, rows') => (Returned true, rows')
      end.

(** The message of what an operation threw, if it threw. *)
Definition thrown_message {A} (o : outcome A) : option string :=
  match o with
  | Thrown (Error m) => Some m
  | Returned _ => None
  end.

End Purge.

(** ** Words for the effects of the repository *)

Module Effects.
Import Store Repository.

(** The partial update [updateNote] sends for [patch]. *)
Definition update_data `{Engine} (patch : NotePatch) : Patch :=
  {| set_title := trim <$> patch_title patch;
     set_body := trim <$> patch_body patch;
     set_tags := patch_tags patch;
     set_deleted_at := None |}.

(** A patch whose title is blank. *)
Definition blank_title `{Engine} (patch : NotePatch) : Prop :=
  ∃ t, patch_title patch = Some t ∧ trim t = "".

(** The note [n] with the content of [patch]. *)
Definition revised `{Engine} (patch : NotePatch) (n : Note) : Note :=
  {| id := id n;
     title := default (title n) (trim <$> patch_title patch);
     body := default (body n) (trim <$> patch_body patch);
     tags := default (tags n) (patch_tags patch);
     created_at := created_at n;
     updated_at := updated_at n;
     deleted_at := deleted_at n |}.

(** Replace the row with the id of [n'] by [n']. *)
Definition replace_row (n' : Note) (rows : list Note) : list Note :=
  map (λ m, if String.eqb (id m) (id n') then n' else m) rows.

(** The rows with an id other than [s]. *)
Definition without (s : string) (rows : list Note) : list Note :=
  List.filter (λ m, negb (String.eqb (id m) s)) rows.

(** The operations that write to the table. *)
Inductive Operation `{Engine} :=
| Create (input : CreateInput)
| Update (id : option string) (patch : NotePatch)
| SoftDelete (now : string) (id : option string)
| Restore (id : option string)
| PermanentlyDelete (id : option string).

(** The table after an operation, and the message of what it threw. *)
Definition table_after `{Engine} (rt : RoundTrip) (op : Operation)
    (rows : list Note) : list Note :=
  match op with
  | Create input => snd (createNote rt input rows)
  | Update i patch => snd (updateNote rt i patch rows)
  | SoftDelete now i => snd (deleteNote rt now i rows)
  | Restore i => snd (restoreNote rt i rows)
  | PermanentlyDelete i => snd (Purge.permanentlyDeleteNote rt i rows)
  end.

Definition failure `{Engine} (rt : RoundTrip) (op : Operation)
    (rows : list Note) : option string :=
  match op with
  | Create input => Purge.thrown_message (fst (createNote rt input rows))
  | Update i patch => Purge.thrown_message (fst (updateNote rt i patch rows))
  | SoftDelete now i => Purge.thrown_message (fst (deleteNote rt now i rows))
  | Restore i => Purge.thrown_message (fst (restoreNote rt i rows))
  | PermanentlyDelete i =>
      Purge.thrown_message (fst (Purge.permanentlyDeleteNote rt i rows))
  end.

End Effects.

(** ** Words for what the pipeline shows *)

Module Shown.
Import Pipeline.

(** The time value of a stamp that parses. *)
Definition stamp `{Engine} (s : string) : Z := default 0%Z (Date_parse s).

(** The search text is blank, or occurs in the title or in the body,
    letter case apart. *)
Definition text_matches `{Engine} (q : string) (n : Note) : Prop :=
  trim q = "" ∨
  includes (toLowerCase (title n)) (toLowerCase q) = true ∨
  (body n ≠ "" ∧ includes (toLowerCase (body n)) (toLowerCase q) = true).

(** No tag is selected, or the note carries one of the selected tags. *)
Definition tag_matches (selected : list string) (n : Note) : Prop :=
  selected = [] ∨ ∃ t ts, t ∈ selected ∧ tags n = Some ts ∧ t ∈ ts.

Definition tagged (n : Note) : Prop := ∃ ts, tags n = Some ts ∧ ts ≠ [].

Definition long (n : Note) : Prop := (100 ≤ String.length (body n))%nat.

End Shown.

(** ** The home screen ([src/app/(tabs)/_layout.tsx], [HomeScreen]) *)

Module HomeScreen.
Import Pipeline.

#[global] Instance SortOption_eq_dec : EqDecision SortOption.
Proof. solve_decision. Defined.

#[global] Instance DateFilter_eq_dec : EqDecision DateFilter.
Proof. solve_decision. Defined.

(** The criteria part of the component's state. *)
Record Criteria := mkCriteria {
  searchQuery : string;
  filters : FilterOptions;
}.

(** The initial value of [filters], also set by [clearAllFilters]. *)
Definition default_filters : FilterOptions :=
  {| sortBy := recent; dateFilter := all; selectedTags := [];
     withTagsOnly := false; longNotesOnly := false |}.

Definition clearAllFilters (c : Criteria) : Criteria :=
  {| searchQuery := ""; filters := default_filters |}.

Definition hasActiveFilters `{Engine} (c : Criteria) : bool :=
  negb (String.eqb (trim (searchQuery c)) "") ||
  bool_decide (dateFilter (filters c) ≠ all) ||
  (0 <? length (selectedTags (filters c)))%nat ||
  withTagsOnly (filters c) ||
  longNotesOnly (filters c) ||
  bool_decide (sortBy (filters c) ≠ recent).

(** [tags.add(tag)] on a [Set], kept in insertion order as
    [Array.from(tags)] lists it. *)
Definition Set_add (s : list string) (tag : string) : list string :=
  if bool_decide (tag ∈ s) then s else (s ++ [tag])%list.

(** The tag loop of [fetchNotes]:
    [if (tag && typeof tag === 'string') tags.add(tag)]. *)
Definition add_tag (s : list string) (tag : string) : list string :=
  if truthy tag then Set_add s tag else s.

Definition add_note_tags (s : list string) (note : Note) : list string :=
  match tags note with
  | Some ts => fold_left add_tag ts s
  | None => s
  end.

(** The value passed to [setAllTags]. *)
Definition collectTags (notes : list Note) : list string :=
  fold_left add_note_tags notes [].

End HomeScreen.

(** ** The filter sheet ([src/components/FilterModal.tsx]) *)

Module FilterModal.
Import Pipeline.

Definition handleReset (localFilters : FilterOptions) : FilterOptions :=
  {| sortBy := recent; dateFilter := all; selectedTags := [];
     withTagsOnly := false; longNotesOnly := false |}.

Definition toggleTag (tag : string) (prev : FilterOptions) : FilterOptions :=
  {| sortBy := sortBy prev;
     dateFilter := dateFilter prev;
     selectedTags :=
       if bool_decide (tag ∈ selectedTags prev)
       then List.filter (λ t, negb (String.eqb t tag)) (selectedTags prev)
       else (selectedTags prev ++ [tag])%list;
     withTagsOnly := withTagsOnly prev;
     longNotesOnly := longNotesOnly prev |}.

Definition hasActiveFilters (localFilters : FilterOptions) : bool :=
  bool_decide (sortBy localFilters ≠ recent) ||
  bool_decide (dateFilter localFilters ≠ all) ||
  (0 <? length (selectedTags localFilters))%nat ||
  withTagsOnly localFilters ||
  longNotesOnly localFilters.

End FilterModal.

(** ** The note editor ([NoteEditor]: [addTag], [removeTag]) *)

Module NoteEditor.
Import Pipeline.

(** The [tags] and [tagInput] state, and the alert shown, if any. *)
Record TagState := mkTagState {
  tags : list string;
  tagInput : string;
  alert : option (string * string);
}.

Definition addTag `{Engine} (tags : list string) (tagInput : string)
  : TagState :=
  let newTag := trim tagInput in
  if truthy newTag && negb (bool_decide (newTag ∈ tags)) &&
     (String.length newTag <=? 20)%nat
  then {| tags := (tags ++ [newTag])%list; tagInput := ""; alert := None |}
  else if (20 <? String.length newTag)%nat
  then {| tags := tags; tagInput := tagInput;
          alert := Some ("Tag too long",
                         "Tags must be 20 characters or less") |}
  else if bool_decide (newTag ∈ tags)
  then {| tags := tags; tagInput := tagInput;
          alert := Some ("Duplicate tag", "This tag already exists") |}
  else {| tags := tags; tagInput := tagInput; alert := None |}.

Definition removeTag (tags : list string) (tagToRemove : string)
  : list string :=
  List.filter (λ tag, negb (String.eqb tag tagToRemove)) tags.

(** What the user does to the tag list. *)
Inductive Edit :=
| Add (typed : string)
| Remove (tag : string).

Definition edit `{Engine} (ts : list string) (e : Edit) : list string :=
  match e with
  | Add typed => tags (addTag ts typed)
  | Remove tag => removeTag ts tag
  end.

(** A tag the editor accepts: not empty, at most 20 characters. *)
Definition well_formed (tag : string) : Prop :=
  tag ≠ "" ∧ (String.length tag ≤ 20)%nat.

End NoteEditor.

(** ** Tags typed as a comma-separated line
    ([src/app/(tabs)/create.tsx], [processedTags], [removeTag]) *)

Module TagLine.
Import Pipeline.

(** [s.split(',')] *)
Fixpoint split_comma (s : string) : list string :=
  match s with
  | EmptyString => [EmptyString]
  | String c s' =>
      if Ascii.eqb c ","%char then EmptyString :: split_comma s'
      else match split_comma s' with
           | piece :: pieces => String c piece :: pieces
           | [] => [String c EmptyString]
           end
  end.

(** [l.join(', ')] *)
Fixpoint join (l : list string) : string :=
  match l with
  | [] => ""
  | [x] => x
  | x :: rest => x ++ ", " ++ join rest
  end.

Definition processedTags `{Engine} (tags : string) : list string :=
  List.filter (λ tag, (0 <? String.length tag)%nat)
    (map trim (split_comma tags)).

(** [removeTag]: the new value of the [tags] line. *)
Definition removeTag `{Engine} (tags : string) (tagToRemove : string)
  : string :=
  let remainingTags :=
    List.filter (λ tag, negb (String.eqb tag tagToRemove))
      (processedTags tags) in
  join remainingTags.

Fixpoint comma_free (s : string) : bool :=
  match s with
  | EmptyString => true
  | String c s' => negb (Ascii.eqb c ","%char) && comma_free s'
  end.

(** A tag that reads back as itself from a line: not empty, without a
    comma, and left alone by [trim], also behind a space. *)
Definition tidy `{Engine} (tag : string) : Prop :=
  tag ≠ "" ∧ comma_free tag = true ∧ trim tag = tag ∧
  trim (" " ++ tag) = tag.

End TagLine.

(** ** The note card ([NoteCard]: [formatDate], [getCardAccent]) *)

Module NoteCard.
Import Pipeline.

Section WithEngine.
Context `{Engine}.

(** [date.toLocaleDateString()] of the date with the given time value. *)
Variable toLocaleDateString : option Z → string.

(** [Math.floor(diffMs / (1000 * 60 * 60))] *)
Definition hours (diffMs : option Z) : option Z :=
  (λ ms, ms / (1000 * 60 * 60))%Z <$> diffMs.

(** [now] is the time value of [new Date()]; a comparison with [NaN] is
    false. *)
Definition formatDate (now : Z) (dateString : string) : string :=
  let date := Date_parse dateString in
  let diffMs := minus (Some now) date in
  match hours diffMs with
  | Some diffHours =>
      if (diffHours <? 1)%Z then "Just now"
      else if (diffHours <? 24)%Z then pretty diffHours ++ "h ago"
      else if (diffHours <? 168)%Z then pretty (diffHours / 24)%Z ++ "d ago"
      else toLocaleDateString date
  | None => toLocaleDateString date
  end.

End WithEngine.

Definition colors : list string :=
  [ "#3b82f6"; "#8b5cf6"; "#06d6a0"; "#f59e0b";
    "#ef4444"; "#10b981"; "#ec4899"; "#6366f1" ].

(** [colors[index]]; [None] would be [undefined]. *)
Definition getCardAccent (title : string) : option string :=
  let index := (String.length title mod length colors)%nat in
  colors !! index.

End NoteCard.

(** ** Concrete notes and criteria *)

Module Scenario.
Import Pipeline.

(** The clock reads 2024-05-10T12:00:00.000Z. *)
Definition now : Z := 1715342400000%Z.

Definition zeta : Note :=
  {| id := "n1"; title := "Zeta"; body := "last of the alphabet";
     tags := Some ["greek"];
     created_at := "2024-05-07T12:00:00.000Z";
     updated_at := "2024-05-07T12:00:00.000Z";
     deleted_at := None |}.

Definition alpha : Note :=
  {| id := "n2"; title := "Alpha"; body := ""; tags := None;
     created_at := "2024-05-09T12:00:00.000Z";
     updated_at := "2024-05-10T12:00:00.000Z";
     deleted_at := None |}.

(** Created seven days and one hour before [now]. *)
Definition stale : Note :=
  {| id := "n3"; title := "Stale"; body := ""; tags := None;
     created_at := "2024-05-03T11:00:00.000Z";
     updated_at := "2024-05-03T11:00:00.000Z";
     deleted_at := None |}.

(** A soft-deleted note. *)
Definition binned : Note :=
  {| id := "n4"; title := "Binned"; body := ""; tags := None;
     created_at := "2024-05-01T08:00:00.000Z";
     updated_at := "2024-05-02T08:00:00.000Z";
     deleted_at := Some "2024-05-04T08:00:00.000Z" |}.

(** A note whose [created_at] is not a date. *)
Definition undated : Note :=
  {| id := "n6"; title := "Undated"; body := ""; tags := None;
     created_at := "yesterday";
     updated_at := "2024-05-10T09:00:00.000Z";
     deleted_at := None |}.

Definition no_filters : FilterOptions :=
  {| sortBy := recent; dateFilter := all; selectedTags := [];
     withTagsOnly := false; longNotesOnly := false |}.

(** The component's [notes] array is the object at reference 0. *)
Definition heap : gmap nat (list Note) := {[ 0%nat := [zeta; alpha] ]}.

Definition created_today : FilterOptions :=
  {| sortBy := recent; dateFilter := today; selectedTags := [];
     withTagsOnly := false; longNotesOnly := false |}.

(** A round trip on which the service answers. *)
Definition reachable : Store.RoundTrip :=
  {| Store.fault := None;
     Store.clock := "2024-05-10T12:00:00.000Z";
     Store.generated_id := "n5" |}.

Definition table : list Note := [zeta; alpha; binned].

End Scenario.

(** * Properties *)

(** ** Tag index *)

Section TagIndexFacts.
Import TagIndex.
Context `{Engine}.

Lemma shown_lookup_nonneg (c : Z) : (0 ≤ c)%Z → shown (c + 1) = Some (VNum (c + 1)).
Proof. intros Hc. unfold shown. case_decide; [lia | done]. Qed.

Lemma count_tag_lookup (m : gmap string value) (c : string → Z) (t0 : string) :
  plain t0 →
  (∀ t, (0 ≤ c t)%Z) →
  (∀ t, m !! t = shown (c t)) →
  ∀ t, count_tag m t0 !! t
       = shown (c t + if decide (t0 = t) then 1 else 0).
Proof.
  intros [Hproto Hne] Hpos Hm t.
  unfold count_tag, set_property, get_or_zero.
  rewrite decide_False by done.
  rewrite (Hm t0), Hproto.
  destruct (decide (t0 = t)) as [->|Hneq].
  - rewrite shown_lookup_nonneg by auto.
    unfold shown at 1. case_decide as Hz.
    + rewrite Hz. simpl. by rewrite lookup_insert_eq.
    + simpl. by rewrite lookup_insert_eq.
  - rewrite lookup_insert_ne by done.
    rewrite Z.add_0_r. apply Hm.
Qed.

Lemma fold_tags_lookup (ts : list string) :
  Forall plain ts →
  ∀ (m : gmap string value) (c : string → Z),
    (∀ t, (0 ≤ c t)%Z) →
    (∀ t, m !! t = shown (c t)) →
    ∀ t, fold_left count_tag ts m !! t
         = shown (c t + Z.of_nat (count_occ string_dec ts t)).
Proof.
  induction 1 as [|t0 ts Ht0 _ IH]; intros m c Hpos Hm t; simpl.
  - by rewrite Z.add_0_r.
  - rewrite (IH _ (λ t, c t + if decide (t0 = t) then 1 else 0)%Z).
    + f_equal. destruct (string_dec t0 t), (decide (t0 = t)); try done; lia.
    + intros t'. specialize (Hpos t'). case_decide; lia.
    + by apply count_tag_lookup.
Qed.

Lemma occurrences_nonneg (t : string) (notes : list Note) :
  (0 ≤ occurrences t notes)%Z.
Proof.
  induction notes as [|n notes IH]; simpl; [lia |].
  unfold occurrences_in. destruct (tags n); lia.
Qed.

Lemma fold_notes_lookup (notes : list Note) :
  plain_tags notes →
  ∀ (m : gmap string value) (c : string → Z),
    (∀ t, (0 ≤ c t)%Z) →
    (∀ t, m !! t = shown (c t)) →
    ∀ t, fold_left count_note notes m !! t
         = shown (c t + occurrences t notes).
Proof.
  induction 1 as [|n notes Hn _ IH]; intros m c Hpos Hm t; simpl.
  - by rewrite Z.add_0_r.
  - rewrite (IH _ (λ t, c t + occurrences_in t n)%Z).
    + f_equal. lia.
    + intros t'. specialize (Hpos t'). unfold occurrences_in.
      destruct (tags n); lia.
    + intros t'. unfold count_note, occurrences_in.
      unfold tags_of in Hn. destruct (tags n) as [ts|]; simpl in Hn.
      * by apply fold_tags_lookup.
      * by rewrite Z.add_0_r.
Qed.

Lemma distinct_occurrences (t : string) (notes : list Note) :
  distinct_tags notes → occurrences t notes = notes_carrying t notes.
Proof.
  unfold notes_carrying.
  induction 1 as [|n notes Hn _ IH]; [done |].
  simpl. rewrite filter_cons, IH.
  unfold occurrences_in, carries, tags_of in *.
  destruct (tags n) as [ts|]; simpl in *.
  - apply NoDup_ListNoDup in Hn.
    destruct (decide (t ∈ ts)) as [Hin|Hnin].
    + rewrite decide_True by (by apply bool_decide_eq_true).
      apply list_elem_of_In in Hin.
      rewrite (proj1 (NoDup_count_occ' string_dec ts) Hn t Hin).
      simpl length. lia.
    + rewrite decide_False by (by rewrite bool_decide_eq_true).
      rewrite (proj1 (count_occ_not_In string_dec ts t)); [lia |].
      by rewrite <- list_elem_of_In.
  - cbn. lia.
Qed.

(** C1 (as amended): [tagUsage] maps each tag to the number of times it
    is written in the notes' tag lists, so a tag repeated inside one note
    counts once per repetition; when no note repeats a tag this is the
    number of notes carrying it, and a note whose [tags] is [null]
    contributes nothing.  Tags are taken not to be names of members
    inherited from [Object.prototype]. *)
Theorem tagUsage_counts_occurrences (notes : list Note) :
  plain_tags notes →
  (∀ t, calculateTagUsage notes !! t = shown (occurrences t notes)) ∧
  (distinct_tags notes →
   ∀ t, calculateTagUsage notes !! t = shown (notes_carrying t notes)) ∧
  (∀ before n after,
     notes = (before ++ n :: after)%list → tags n = None →
     calculateTagUsage notes = calculateTagUsage (before ++ after)%list).
Proof.
  intros Hplain.
  assert (Hocc : ∀ t, calculateTagUsage notes !! t
                      = shown (occurrences t notes)).
  { intros t. unfold calculateTagUsage.
    rewrite (fold_notes_lookup notes Hplain ∅ (λ _, 0%Z)); [done | done |].
    intros t'. by rewrite lookup_empty. }
  split; [exact Hocc |]. split.
  - intros Hd t. rewrite Hocc. by rewrite distinct_occurrences.
  - intros before n after -> Hnull. unfold calculateTagUsage.
    rewrite !fold_left_app. simpl. unfold count_note at 2.
    by rewrite Hnull.
Qed.

End TagIndexFacts.

(** C1 (as stated) fails on the scenario of the design: the tag written
    twice in the first note is counted twice. *)
Lemma tagUsage_scenario_double_counts :
  TagIndex.notes_carrying "a" TagIndex.scenario = 1%Z ∧
  TagIndex.calculateTagUsage TagIndex.scenario
  = {[ "a" := TagIndex.VNum 2; "b" := TagIndex.VNum 2 ]} ∧
  TagIndex.calculateTagUsage TagIndex.scenario
  ≠ {[ "a" := TagIndex.VNum 1; "b" := TagIndex.VNum 2 ]}.
Proof.
  split; [reflexivity |].
  assert (E : TagIndex.calculateTagUsage TagIndex.scenario
              = {[ "a" := TagIndex.VNum 2; "b" := TagIndex.VNum 2 ]}).
  { by vm_compute. }
  split; [exact E |].
  rewrite E. intros Heq.
  assert (Ha : ({[ "a" := TagIndex.VNum 2; "b" := TagIndex.VNum 2 ]}
                : gmap string TagIndex.value) !! "a"
               = Some (TagIndex.VNum 1)).
  { rewrite Heq. by vm_compute. }
  vm_compute in Ha. discriminate.
Qed.

Lemma tagUsage_counts_occurrences_witness :
  TagIndex.plain_tags TagIndex.scenario ∧
  ∀ t, TagIndex.calculateTagUsage TagIndex.scenario !! t
       = TagIndex.shown (TagIndex.occurrences t TagIndex.scenario).
Proof.
  assert (Hp : TagIndex.plain_tags TagIndex.scenario).
  { repeat constructor; by vm_compute. }
  split; [exact Hp |].
  apply (tagUsage_counts_occurrences TagIndex.scenario Hp).
Defined.

(** A tag that is the name of an inherited member gets no count: the
    property holds a text. *)
Example tagUsage_of_inherited_name :
  TagIndex.calculateTagUsage [TagIndex.tagged (Some ["constructor"])]
  = {[ "constructor"
       := TagIndex.VStr "function Object() { [native code] }1" ]}.
Proof. by vm_compute. Qed.

(** ** Query pipeline *)

Section PipelineFacts.
Import Pipeline Shown.
Context `{Engine} `{Sorter}.

Implicit Types (h : gmap nat (list Note)) (a r : ref) (l : list Note).

(** Name the result of the next stage of a run. *)
Ltac next_stage E r h E' :=
  match type of E with
  | context [match ?m with pair _ _ => _ end] =>
      destruct m as [r h] eqn:E'
  end.

Lemma elements_insert h a l : elements a (<[a := l]> h) = l.
Proof. unfold elements. by rewrite lookup_insert_eq. Qed.

Lemma fresh_unused h : h !! fresh (dom h) = None.
Proof. apply not_elem_of_dom, is_fresh. Qed.

Lemma alloc_spec l h r h' :
  alloc l h = (r, h') →
  h ⊆ h' ∧ (r ∉ dom h) ∧ h' !! r = Some l.
Proof.
  unfold alloc. intros [= <- <-]. split; [|split].
  - apply insert_subseteq, fresh_unused.
  - apply is_fresh.
  - apply lookup_insert_eq.
Qed.

Lemma elements_lookup h a l : h !! a = Some l → elements a h = l.
Proof. unfold elements. by intros ->. Qed.

Lemma filter_all l : List.filter (λ _, true) l = l.
Proof. induction l as [|x l IH]; simpl; [done | by rewrite IH]. Qed.

Lemma filter_filter (p q : Note → bool) l :
  List.filter q (List.filter p l) = List.filter (λ n, p n && q n) l.
Proof.
  induction l as [|x l IH]; simpl; [done |].
  destruct (p x); simpl; [destruct (q x) |]; by rewrite IH.
Qed.

(** A filter that runs only under a condition. *)
Lemma guarded_filter_spec (c : bool) (p : Note → bool) a h r h' :
  (if c then Array_filter p a else ret a) h = (r, h') →
  h ⊆ h' ∧
  elements r h' = List.filter (λ n, if c then p n else true) (elements a h).
Proof.
  destruct c.
  - unfold Array_filter. intros E.
    apply alloc_spec in E as (? & _ & ?). by auto using elements_lookup.
  - intros [= <- <-]. by rewrite filter_all.
Qed.

Lemma filterByDate_spec now a df h r h' :
  filterByDate now a df h = (r, h') →
  h ⊆ h' ∧
  elements r h' = List.filter (createdWithin now df) (elements a h).
Proof.
  destruct df; simpl.
  - intros [= <- <-]. split; [done |]. unfold createdWithin.
    by rewrite filter_all.
  - unfold Array_filter. intros E.
    apply alloc_spec in E as (? & _ & ?). by auto using elements_lookup.
  - unfold Array_filter. intros E.
    apply alloc_spec in E as (? & _ & ?). by auto using elements_lookup.
  - unfold Array_filter. intros E.
    apply alloc_spec in E as (? & _ & ?). by auto using elements_lookup.
Qed.

Lemma sort_spread_spec (cmp : Note → Note → option Z) a h r h' :
  (sorted ← Array_spread a; Array_sort cmp sorted) h = (r, h') →
  h ⊆ h' ∧ (r ∉ dom h) ∧
  h' !! r = Some (Array_prototype_sort cmp (elements a h)).
Proof.
  unfold mbind, M_bind, bind, Array_spread, Array_sort, alloc.
  intros [= <- <-].
  rewrite insert_insert_eq, elements_insert. split; [|split].
  - apply insert_subseteq, fresh_unused.
  - apply is_fresh.
  - apply lookup_insert_eq.
Qed.

Lemma sortNotes_spec a (s : SortOption) h r h' :
  sortNotes a s h = (r, h') →
  h ⊆ h' ∧ (r ∉ dom h) ∧
  h' !! r = Some (Array_prototype_sort (comparator s) (elements a h)).
Proof. destruct s; apply sort_spread_spec. Qed.

(** The array the pipeline hands over holds the selected notes, sorted;
    the heap only grows. *)
Lemma applyFiltersAndSort_spec now a q (f : FilterOptions) h r h' :
  applyFiltersAndSort now a q f h = (r, h') →
  h ⊆ h' ∧ (r ∉ dom h) ∧
  h' !! r
  = Some (Array_prototype_sort (comparator (sortBy f))
            (List.filter (selects now q f) (elements a h))).
Proof.
  unfold applyFiltersAndSort, mbind, M_bind, bind. intros E6.
  next_stage E6 r1 h1 E1. next_stage E6 r2 h2 E2. next_stage E6 r3 h3 E3.
  next_stage E6 r4 h4 E4. next_stage E6 r5 h5 E5.
  apply guarded_filter_spec in E1 as [S1 L1].
  apply filterByDate_spec in E2 as [S2 L2].
  apply guarded_filter_spec in E3 as [S3 L3].
  apply guarded_filter_spec in E4 as [S4 L4].
  apply guarded_filter_spec in E5 as [S5 L5].
  apply sortNotes_spec in E6 as (S6 & F6 & L6).
  assert (S : h ⊆ h5).
  { trans h1; [done |]. trans h2; [done |]. trans h3; [done |].
    by trans h4. }
  split; [by etrans |]. split.
  - intros Hin. apply F6. by apply (subseteq_dom h h5).
  - rewrite L6, L5, L4, L3, L2, L1, !filter_filter.
    do 2 f_equal. apply filter_ext. intros n. unfold selects, keeps.
    rewrite !andb_assoc. do 3 f_equal. apply andb_comm.
Qed.
Lemma output_spec now a q (f : FilterOptions) h :
  output (applyFiltersAndSort now a q f) h
  = Array_prototype_sort (comparator (sortBy f))
      (List.filter (selects now q f) (elements a h)).
Proof.
  unfold output.
  destruct (applyFiltersAndSort now a q f h) as [r h'] eqn:E.
  apply applyFiltersAndSort_spec in E as (_ & _ & L).
  by apply elements_lookup.
Qed.

Lemma insert_by_perm (cmp : Note → Note → option Z) x l :
  insert_by cmp x l ≡ₚ x :: l.
Proof.
  induction l as [|y l IH]; simpl; [done |].
  destruct (behind cmp x y); [| done].
  rewrite IH. apply Permutation_swap.
Qed.

Lemma sorted_by_perm (cmp : Note → Note → option Z) l :
  sorted_by cmp l ≡ₚ l.
Proof.
  induction l as [|x l IH]; simpl; [done |].
  by rewrite insert_by_perm, IH.
Qed.

Lemma at_or_after_spec (x : option Z) (y : Z) :
  at_or_after x y = true ↔ ∃ t, x = Some t ∧ (y ≤ t)%Z.
Proof.
  unfold at_or_after. destruct x as [t|].
  - rewrite Z.leb_le. split.
    + intros Hle. by exists t.
    + by intros (t' & [= <-] & Hle).
  - split; [done |]. by intros (t' & [=] & _).
Qed.

Lemma elem_of_filter_bool (p : Note → bool) l n :
  n ∈ List.filter p l ↔ n ∈ l ∧ p n = true.
Proof. rewrite !list_elem_of_In. apply filter_In. Qed.

Lemma malformed_outside_window now (df : DateFilter) n :
  malformed n → df ≠ all → createdWithin now df n = false.
Proof.
  unfold malformed, createdWithin. intros -> Hdf. by destruct df.
Qed.

(** C6 (as amended): the date filter keeps exactly the notes created at
    or after local midnight of the current day for [today], at or after
    7×24 hours before that midnight for [thisWeek], at or after 30×24
    hours before that midnight for [thisMonth]; [all] hands back the
    array it was given. *)
Theorem filterByDate_windows now a (df : DateFilter) h :
  let '(r, h') := filterByDate now a df h in
  let midnight := startOfLocalDay now in
  match df with
  | all => r = a ∧ h' = h
  | today =>
      ∀ n, n ∈ elements r h' ↔ n ∈ elements a h ∧ created_since midnight n
  | thisWeek =>
      ∀ n, n ∈ elements r h' ↔
           n ∈ elements a h ∧ created_since (midnight - 7 * 24 * hour) n
  | thisMonth =>
      ∀ n, n ∈ elements r h' ↔
           n ∈ elements a h ∧ created_since (midnight - 30 * 24 * hour) n
  end.
Proof.
  destruct (filterByDate now a df h) as [r h'] eqn:E.
  pose proof (filterByDate_spec _ _ _ _ _ _ E) as [_ L].
  destruct df; simpl.
  - by injection E as <- <-.
  - intros n. rewrite L, elem_of_filter_bool. unfold createdWithin.
    by rewrite at_or_after_spec.
  - intros n. rewrite L, elem_of_filter_bool. unfold createdWithin.
    by rewrite at_or_after_spec.
  - intros n. rewrite L, elem_of_filter_bool. unfold createdWithin.
    by rewrite at_or_after_spec.
Qed.

(** C7: the pipeline always hands over an array (no step of it can
    throw on notes and criteria of their types); a note whose
    [created_at] does not parse is never in the result under [today],
    [thisWeek] or [thisMonth], and under [all] it is in the result
    exactly when it is in the input and passes the other filters. *)
Theorem pipeline_total_tolerates_malformed now a q (f : FilterOptions) h :
  ∃ r h', applyFiltersAndSort now a q f h = (r, h') ∧
    ∀ n, malformed n →
      (dateFilter f ≠ all → n ∉ elements r h') ∧
      (dateFilter f = all →
       (n ∈ elements r h' ↔ n ∈ elements a h ∧ keeps q f n = true)).
Proof.
  destruct (applyFiltersAndSort now a q f h) as [r h'] eqn:E.
  exists r, h'. split; [done |]. intros n Hbad.
  apply applyFiltersAndSort_spec in E as (_ & _ & L).
  rewrite (elements_lookup _ _ _ L), sort_permutes, elem_of_filter_bool.
  unfold selects. split.
  - intros Hdf [_ Hsel].
    rewrite (malformed_outside_window now _ n Hbad Hdf) in Hsel. done.
  - intros ->. simpl. done.
Qed.

Lemma insert_by_filter (cmp : Note → Note → option Z) (p : Note → bool) x l :
  (∀ y, p x = true → p y = true → behind cmp x y = false) →
  List.filter p (insert_by cmp x l) = List.filter p (x :: l).
Proof.
  intros Hp. induction l as [|y l IH]; [done |].
  simpl insert_by. destruct (behind cmp x y) eqn:Hb; [| done].
  simpl in *. rewrite IH.
  destruct (p x) eqn:Hx; [| done].
  destruct (p y) eqn:Hy; [| done].
  rewrite (Hp y eq_refl Hy) in Hb. done.
Qed.

(** Notes that the comparator never puts behind one another keep their
    order. *)
Lemma sorted_by_filter (cmp : Note → Note → option Z) (p : Note → bool) l :
  (∀ x y, p x = true → p y = true → behind cmp x y = false) →
  List.filter p (sorted_by cmp l) = List.filter p l.
Proof.
  intros Hp. induction l as [|x l IH]; [done |].
  simpl sorted_by. rewrite insert_by_filter by auto.
  simpl. by rewrite IH.
Qed.

Lemma insert_by_sorted (cmp : Note → Note → option Z) (R : relation Note)
    x l :
  Transitive R →
  (∀ y, y ∈ l → if behind cmp x y then R y x else R x y) →
  StronglySorted R l → StronglySorted R (insert_by cmp x l).
Proof.
  intros HR Hx Hs. induction Hs as [|y l Hs IH Hy]; simpl.
  - repeat constructor.
  - pose proof (Hx y ltac:(left)) as Hxy.
    destruct (behind cmp x y).
    + constructor.
      * apply IH. intros z Hz. apply Hx. by right.
      * rewrite insert_by_perm. by constructor.
    + constructor; [by constructor |].
      constructor; [done |].
      rewrite Forall_forall in Hy. apply Forall_forall.
      intros z Hz. by trans y; [| apply Hy].
Qed.

Lemma sorted_by_sorted (cmp : Note → Note → option Z) (R : relation Note) l :
  Transitive R →
  (∀ x y, x ∈ l → y ∈ l → if behind cmp x y then R y x else R x y) →
  StronglySorted R (sorted_by cmp l).
Proof.
  intros HR Hl. induction l as [|x l IH]; simpl; [constructor |].
  apply insert_by_sorted; [done | |].
  - intros y Hy. apply Hl; [by left |].
    right. by rewrite <- (sorted_by_perm cmp l).
  - apply IH. intros y z Hy Hz. apply Hl; by right.
Qed.

Lemma behind_updated x y :
  is_Some (Date_parse (updated_at x)) → is_Some (Date_parse (updated_at y)) →
  behind by_updated_desc x y
  = (stamp (updated_at x) <? stamp (updated_at y))%Z.
Proof.
  intros [tx Hx] [ty Hy]. unfold behind, by_updated_desc, stamp.
  rewrite Hx, Hy. simpl.
  destruct (Z.ltb_spec 0 (ty - tx)), (Z.ltb_spec tx ty); lia || done.
Qed.

Lemma behind_created x y :
  is_Some (Date_parse (created_at x)) → is_Some (Date_parse (created_at y)) →
  behind by_created_asc x y
  = (stamp (created_at y) <? stamp (created_at x))%Z.
Proof.
  intros [tx Hx] [ty Hy]. unfold behind, by_created_asc, stamp.
  rewrite Hx, Hy. simpl.
  destruct (Z.ltb_spec 0 (tx - ty)), (Z.ltb_spec ty tx); lia || done.
Qed.

Lemma filter_Forall (P : Note → Prop) (p : Note → bool) l :
  Forall P l → Forall P (List.filter p l).
Proof.
  rewrite !Forall_forall. intros Hl x Hx.
  apply Hl. apply list_elem_of_In, filter_In in Hx as [Hx _].
  by apply list_elem_of_In.
Qed.

Lemma ranked_updated l :
  Forall (λ n, is_Some (Date_parse (updated_at n))) l →
  ranked_by (λ n, (- stamp (updated_at n))%Z) by_updated_desc l.
Proof.
  rewrite Forall_forall. intros Hl x y Hx Hy.
  destruct (Hl x Hx) as [tx Ex], (Hl y Hy) as [ty Ey].
  exists (ty - tx)%Z. unfold by_updated_desc, stamp. rewrite Ex, Ey. simpl.
  split; [done |]. f_equal. lia.
Qed.

Lemma ranked_created l :
  Forall (λ n, is_Some (Date_parse (created_at n))) l →
  ranked_by (λ n, stamp (created_at n)) by_created_asc l.
Proof.
  rewrite Forall_forall. intros Hl x y Hx Hy.
  destruct (Hl x Hx) as [tx Ex], (Hl y Hy) as [ty Ey].
  exists (tx - ty)%Z. unfold by_created_asc, stamp. by rewrite Ex, Ey.
Qed.

(** On stamps that parse, [by_updated_desc] is a consistent comparator and
    the engine's sort leaves the notes from the most to the least recently
    updated. *)
Lemma sort_by_updated_desc l :
  Forall (λ n, is_Some (Date_parse (updated_at n))) l →
  Array_prototype_sort by_updated_desc l = sorted_by by_updated_desc l ∧
  StronglySorted (λ x y, (stamp (updated_at y) ≤ stamp (updated_at x))%Z)
    (Array_prototype_sort by_updated_desc l).
Proof.
  intros Hl.
  pose proof (sort_consistent _ _ _ (ranked_updated l Hl)) as E.
  split; [exact E |]. rewrite E.
  rewrite Forall_forall in Hl.
  apply sorted_by_sorted.
  - intros x y z ??. lia.
  - intros x y Hx Hy.
    rewrite behind_updated by (by apply Hl).
    destruct (Z.ltb_spec (stamp (updated_at x)) (stamp (updated_at y))); lia.
Qed.

Lemma sort_by_created_asc l :
  Forall (λ n, is_Some (Date_parse (created_at n))) l →
  Array_prototype_sort by_created_asc l = sorted_by by_created_asc l ∧
  StronglySorted (λ x y, (stamp (created_at x) ≤ stamp (created_at y))%Z)
    (Array_prototype_sort by_created_asc l).
Proof.
  intros Hl.
  pose proof (sort_consistent _ _ _ (ranked_created l Hl)) as E.
  split; [exact E |]. rewrite E.
  rewrite Forall_forall in Hl.
  apply sorted_by_sorted.
  - intros x y z ??. lia.
  - intros x y Hx Hy.
    rewrite behind_created by (by apply Hl).
    destruct (Z.ltb_spec (stamp (created_at y)) (stamp (created_at x))); lia.
Qed.

(** C8: [recent] and [mostEdited] sort alike: [sortNotes] returns the
    same array in the same heap for both, and so does the pipeline under
    criteria that differ in nothing else; the array is the input sorted
    with the comparator on [updated_at], which on stamps that parse is the
    stable sort, descending by [updated_at]. *)
Theorem recent_mostEdited_identical now a q (f : FilterOptions) h :
  sortNotes a recent h = sortNotes a mostEdited h ∧
  applyFiltersAndSort now a q (with_sort recent f) h
  = applyFiltersAndSort now a q (with_sort mostEdited f) h ∧
  output (sortNotes a mostEdited) h
  = Array_prototype_sort by_updated_desc (elements a h) ∧
  (Forall (λ n, is_Some (Date_parse (updated_at n))) (elements a h) →
   output (sortNotes a mostEdited) h
   = sorted_by by_updated_desc (elements a h) ∧
   StronglySorted (λ x y, (stamp (updated_at y) ≤ stamp (updated_at x))%Z)
     (output (sortNotes a mostEdited) h)).
Proof.
  split; [reflexivity |]. split; [reflexivity |].
  assert (E : output (sortNotes a mostEdited) h
              = Array_prototype_sort by_updated_desc (elements a h)).
  { unfold output. destruct (sortNotes a mostEdited h) as [r h'] eqn:E.
    apply sortNotes_spec in E as (_ & _ & L). by apply elements_lookup. }
  split; [exact E |].
  intros Hparse. rewrite E. by apply sort_by_updated_desc.
Qed.

(** C9: the output list is a function of the notes, the criteria and the
    clock alone: runs from any two heaps in which the input arrays hold
    the same notes hand over the same list, and so does a second run
    started in the heap the first one left. *)
Theorem apply_deterministic now q (f : FilterOptions) h1 h2 a1 a2 :
  elements a1 h1 = elements a2 h2 →
  output (applyFiltersAndSort now a1 q f) h1
  = output (applyFiltersAndSort now a2 q f) h2 ∧
  (is_Some (h1 !! a1) →
   output (applyFiltersAndSort now a1 q f)
     (heap_after (applyFiltersAndSort now a1 q f) h1)
   = output (applyFiltersAndSort now a1 q f) h1).
Proof.
  intros Heq. rewrite !output_spec, Heq. split; [done |].
  intros [l Hl]. do 2 f_equal.
  unfold heap_after.
  destruct (applyFiltersAndSort now a1 q f h1) as [r h'] eqn:E.
  apply applyFiltersAndSort_spec in E as (S & _ & _). simpl.
  rewrite <- Heq. rewrite (elements_lookup _ _ _ Hl).
  apply elements_lookup. by eapply lookup_weaken.
Qed.

(** C10: a run leaves the caller's array as it was: the input array
    holds the same notes in the same order afterwards, every array that
    existed before is untouched, and the array handed over is a new one;
    the same holds of [sortNotes] alone. *)
Theorem pipeline_leaves_input_unchanged now a q (f : FilterOptions) h l :
  h !! a = Some l →
  (let '(r, h') := applyFiltersAndSort now a q f h in
   h' !! a = Some l ∧ r ≠ a ∧ ∀ b, b ∈ dom h → h' !! b = h !! b) ∧
  (let '(r, h') := sortNotes a (sortBy f) h in
   h' !! a = Some l ∧ r ≠ a ∧ ∀ b, b ∈ dom h → h' !! b = h !! b).
Proof.
  intros Hl.
  assert (Hframe : ∀ r h', h ⊆ h' → r ∉ dom h →
            h' !! a = Some l ∧ r ≠ a ∧ ∀ b, b ∈ dom h → h' !! b = h !! b).
  { intros r h' S F. split; [by eapply lookup_weaken |]. split.
    - intros ->. apply F. by apply elem_of_dom.
    - intros b [x Hb]%elem_of_dom. rewrite Hb. by eapply lookup_weaken. }
  split.
  - destruct (applyFiltersAndSort now a q f h) as [r h'] eqn:E.
    apply applyFiltersAndSort_spec in E as (S & F & _). by apply Hframe.
  - destruct (sortNotes a (sortBy f) h) as [r h'] eqn:E.
    apply sortNotes_spec in E as (S & F & _). by apply Hframe.
Qed.

End PipelineFacts.

(** C6 (as stated) fails for [thisWeek]: with the clock at
    2024-05-10T12:00Z, a note created at 2024-05-03T11:00Z, more than 7×24
    hours earlier, is kept. *)
Lemma thisWeek_keeps_note_older_than_7x24h :
  Pipeline.output
    (Pipeline.filterByDate Scenario.now 0%nat Pipeline.thisWeek)
    {[ 0%nat := [Scenario.stale] ]}
  = [Scenario.stale] ∧
  Date_parse (created_at Scenario.stale) = Some 1714734000000%Z ∧
  (1714734000000 < Scenario.now - 7 * 24 * Pipeline.hour)%Z.
Proof. split; [by vm_compute |]. split; [by vm_compute | by vm_compute]. Qed.

Lemma apply_deterministic_witness :
  Pipeline.elements 0%nat Scenario.heap
  = Pipeline.elements 7%nat {[ 7%nat := [Scenario.zeta; Scenario.alpha] ]} ∧
  Pipeline.output
    (Pipeline.applyFiltersAndSort Scenario.now 0%nat "a" Scenario.no_filters)
    Scenario.heap
  = Pipeline.output
      (Pipeline.applyFiltersAndSort Scenario.now 7%nat "a" Scenario.no_filters)
      {[ 7%nat := [Scenario.zeta; Scenario.alpha] ]}.
Proof.
  assert (E : Pipeline.elements 0%nat Scenario.heap
              = Pipeline.elements 7%nat
                  {[ 7%nat := [Scenario.zeta; Scenario.alpha] ]}).
  { by vm_compute. }
  split; [exact E |].
  apply (apply_deterministic Scenario.now "a" Scenario.no_filters _ _ _ _ E).
Defined.

Lemma pipeline_leaves_input_unchanged_witness :
  Scenario.heap !! 0%nat = Some [Scenario.zeta; Scenario.alpha] ∧
  let '(r, h') :=
    Pipeline.applyFiltersAndSort Scenario.now 0%nat "" Scenario.no_filters
      Scenario.heap in
  h' !! 0%nat = Some [Scenario.zeta; Scenario.alpha] ∧ r ≠ 0%nat ∧
  Pipeline.elements r h' = [Scenario.alpha; Scenario.zeta].
Proof.
  assert (E : Scenario.heap !! 0%nat = Some [Scenario.zeta; Scenario.alpha]).
  { by vm_compute. }
  split; [exact E |].
  pose proof (proj1 (pipeline_leaves_input_unchanged Scenario.now 0%nat ""
                       Scenario.no_filters Scenario.heap _ E)) as P.
  destruct (Pipeline.applyFiltersAndSort _ _ _ _ _) as [r h'] eqn:R.
  destruct P as (P1 & P2 & _). split; [exact P1 |]. split; [exact P2 |].
  vm_compute in R. injection R as <- <-. by vm_compute.
Defined.

(** ** Note repository *)

Section RepositoryFacts.
Import Store Repository.

Implicit Types (rows l : list Note) (n : Note) (s : string)
  (rt : RoundTrip).

Lemma missing_some s : s ≠ "" → missing (Some s) = false.
Proof. intros Hs. simpl. by apply String.eqb_neq. Qed.

Lemma matching_active s n :
  matching [eq_id s; deleted_at_is_null] n = true ↔ id n = s ∧ active n.
Proof.
  unfold matching, active. simpl.
  rewrite andb_true_r, andb_true_iff, String.eqb_eq, bool_decide_eq_true.
  done.
Qed.

Lemma filter_none (p : Note → bool) rows :
  (∀ n, n ∈ rows → p n = false) → List.filter p rows = [].
Proof.
  induction rows as [|x rows IH]; intros Hp; simpl; [done |].
  rewrite (Hp x) by left. apply IH. intros n Hn. apply Hp. by right.
Qed.

(** Ids are unique, so a filter that fixes the id finds one row. *)
Lemma filter_unique (p : Note → bool) rows n :
  NoDup (map id rows) → n ∈ rows → p n = true →
  (∀ m, p m = true → id m = id n) →
  List.filter p rows = [n].
Proof.
  intros Hnd Hn Hpn Hid.
  induction rows as [|x rows IH]; [by apply elem_of_nil in Hn |].
  simpl in Hnd. apply NoDup_cons in Hnd as [Hx Hnd].
  apply elem_of_cons in Hn as [<-|Hn]; simpl.
  - rewrite Hpn. f_equal. apply filter_none. intros m Hm.
    destruct (p m) eqn:Hpm; [| done].
    exfalso. apply Hx. rewrite <- (Hid m Hpm).
    apply list_elem_of_In, in_map, list_elem_of_In, Hm.
  - destruct (p x) eqn:Hpx.
    + exfalso. apply Hx. rewrite (Hid x Hpx).
      apply list_elem_of_In, in_map, list_elem_of_In, Hn.
    + by apply IH.
Qed.

Lemma same_id_same_row rows n m :
  NoDup (map id rows) → n ∈ rows → m ∈ rows → id m = id n → m = n.
Proof.
  intros Hnd Hn Hm Hid.
  induction rows as [|x rows IH]; [by apply elem_of_nil in Hn |].
  simpl in Hnd. apply NoDup_cons in Hnd as [Hx Hnd].
  assert (Hin : ∀ y, y ∈ rows → id y ∈ map id rows).
  { intros y Hy. apply list_elem_of_In, in_map, list_elem_of_In, Hy. }
  apply elem_of_cons in Hn as [->|Hn], Hm as [->|Hm]; [done | | | by apply IH].
  - exfalso. apply Hx. rewrite <- Hid. by apply Hin.
  - exfalso. apply Hx. rewrite Hid. by apply Hin.
Qed.

Lemma patch_where_ids rt (p : Patch) (fs : list Filter) rows :
  map id (patch_where rt p fs rows) = map id rows.
Proof.
  unfold patch_where. rewrite map_map. apply map_ext.
  intros n. by destruct (matching fs n).
Qed.


Lemma apply_soft_delete rt now n :
  apply_patch rt (soft_delete_patch now) n = with_deleted_at (Some now) n.
Proof. reflexivity. Qed.

Lemma deleteNote_run rt now s rows :
  s ≠ "" → fault rt = None →
  deleteNote rt now (Some s) rows
  = (Returned true,
     patch_where rt (soft_delete_patch now)
       [eq_id s; deleted_at_is_null] rows).
Proof.
  intros Hs Hf. unfold deleteNote, update.
  by rewrite (missing_some s Hs), Hf.
Qed.

Lemma getNote_run rt s rows :
  s ≠ "" → fault rt = None →
  getNote rt (Some s) rows
  = (match List.filter (matching [eq_id s; deleted_at_is_null]) rows with
     | [n] => Returned n
     | _ => Thrown NotFoundError
     end, rows).
Proof.
  intros Hs Hf. unfold getNote, select_single, single.
  rewrite (missing_some s Hs), Hf.
  by destruct (List.filter _ rows) as [|? [|? ?]].
Qed.

Lemma getNote_active rt rows n :
  fault rt = None → NoDup (map id rows) →
  n ∈ rows → id n ≠ "" → active n →
  getNote rt (Some (id n)) rows = (Returned n, rows).
Proof.
  intros Hf Hnd Hn Hid Ha. rewrite getNote_run by done.
  rewrite (filter_unique _ rows n); [done | done | done | |].
  - by apply matching_active.
  - by intros m [? _]%matching_active.
Qed.

Lemma getNote_inactive rt rows s :
  fault rt = None → s ≠ "" →
  (∀ n, n ∈ rows → id n = s → ¬ active n) →
  getNote rt (Some s) rows = (Thrown NotFoundError, rows).
Proof.
  intros Hf Hs Hno. rewrite getNote_run by done.
  rewrite filter_none; [done |].
  intros n Hn. destruct (matching _ n) eqn:Hm; [| done].
  apply matching_active in Hm as [Hid Ha]. by destruct (Hno n Hn Hid).
Qed.

Lemma soft_delete_leaves_none_active rt now s rows n :
  n ∈ patch_where rt (soft_delete_patch now)
        [eq_id s; deleted_at_is_null] rows →
  id n = s → ¬ active n.
Proof.
  unfold patch_where. rewrite list_elem_of_In, in_map_iff.
  intros (m & Hm & _) Hid.
  destruct (matching _ m) eqn:Hmatch.
  - by subst n.
  - subst n. intros Ha. apply not_true_iff_false in Hmatch.
    apply Hmatch, matching_active. done.
Qed.

(** The filter of [restoreNote] is one the service does not accept. *)
Lemma restoreNote_run rt s rows :
  s ≠ "" → fault rt = None →
  restoreNote rt (Some s) rows
  = (Thrown (Error (message_or unparsable_filter "Failed to restore note")),
     rows).
Proof.
  intros Hs Hf. unfold restoreNote, update_single.
  by rewrite (missing_some s Hs), Hf.
Qed.

(** C2 (as amended): [softDelete(id)] sets [deleted_at] to the current
    time on the active note with that id and on no other row; for an id
    whose note is not active (already soft-deleted, or nonexistent) it
    changes nothing and still succeeds, returning [true]. *)
Theorem deleteNote_marks_active_else_noop rt now s rows :
  s ≠ "" → fault rt = None →
  ∃ rows',
    deleteNote rt now (Some s) rows = (Returned true, rows') ∧
    rows' = map (soft_deleted s now) rows ∧
    ((∀ n, n ∈ rows → id n = s → ¬ active n) → rows' = rows).
Proof.
  intros Hs Hf. eexists. split; [by apply deleteNote_run |].
  assert (E : patch_where rt (soft_delete_patch now)
                [eq_id s; deleted_at_is_null] rows
              = map (soft_deleted s now) rows).
  { unfold patch_where. apply map_ext. intros n. unfold soft_deleted.
    destruct (matching _ n) eqn:Hm.
    - apply matching_active in Hm. by rewrite decide_True.
    - rewrite decide_False; [done |].
      intros Hc. apply matching_active in Hc. congruence. }
  split; [exact E |].
  intros Hno. rewrite E. rewrite <- (map_id rows) at 2.
  apply map_ext_in. intros n Hn%list_elem_of_In. unfold soft_deleted.
  rewrite decide_False; [done |]. intros [Hid Ha]. by apply (Hno n Hn Hid).
Qed.

(** C5 (as amended): [get(id)] throws the validation error for an absent
    or empty id, and for no other: a non-empty id goes to the service as
    it is.  With unique ids and the service answering, it returns the
    active note with that id and throws "Note not found" when no active
    note has it, also when the note exists but is soft-deleted; so it
    fails after a soft delete of the note. *)
Theorem getNote_finds_active_only rt rows :
  fault rt = None → NoDup (map id rows) →
  (∀ i, missing i = true →
     getNote rt i rows = (Thrown IdRequired, rows) ∧
     ValidationError IdRequired) ∧
  (∀ s e, s ≠ "" → fst (getNote rt (Some s) rows) = Thrown e →
     e = NotFoundError ∧ ¬ ValidationError e) ∧
  (∀ n, n ∈ rows → id n ≠ "" → active n →
     getNote rt (Some (id n)) rows = (Returned n, rows)) ∧
  (∀ s, s ≠ "" → (∀ n, n ∈ rows → id n = s → ¬ active n) →
     getNote rt (Some s) rows = (Thrown NotFoundError, rows)) ∧
  (∀ n now rt1,
     n ∈ rows → id n ≠ "" → active n → fault rt1 = None →
     ∃ rows1,
       deleteNote rt1 now (Some (id n)) rows = (Returned true, rows1) ∧
       getNote rt (Some (id n)) rows1 = (Thrown NotFoundError, rows1)).
Proof.
  intros Hf Hnd. split; [|split; [|split; [|split]]].
  - intros i Hi. unfold getNote. rewrite Hi. split; [done | by left].
  - intros s e Hs. rewrite getNote_run by done. simpl.
    destruct (List.filter _ rows) as [|? [|? ?]]; intros [= <-];
      (split; [done |]); by intros [? | [? | ?]].
  - intros n Hn Hid Ha. by apply getNote_active.
  - intros s Hs Hno. by apply getNote_inactive.
  - intros n now rt1 Hn Hid Ha Hf1.
    eexists. split; [by apply deleteNote_run |].
    apply getNote_inactive; [done | done |].
    intros m Hm Hmid. by eapply soft_delete_leaves_none_active.
Qed.

End RepositoryFacts.

Section RepositoryListFacts.
Import Store Repository.
Context `{Service} `{Engine}.

Implicit Types (rows l : list Note) (n : Note) (rt : RoundTrip).

#[local] Instance desc_total (c : Column) : Total (desc c).
Proof.
  intros a b. unfold desc.
  destruct (key c a), (key c b); try tauto. lia.
Qed.

#[local] Instance desc_trans (c : Column) : Transitive (desc c).
Proof.
  intros a b d. unfold desc.
  destruct (key c a), (key c b), (key c d); try tauto. lia.
Qed.

Lemma StronglySorted_among (R R' : relation Note) (P : Note → Prop) l :
  (∀ a b, P a → P b → R a b → R' a b) →
  Forall P l → StronglySorted R l → StronglySorted R' l.
Proof.
  intros HR HP Hs. induction Hs as [|a l Hs IH Ha]; [constructor |].
  apply Forall_cons in HP as [Pa Pl]. constructor; [by apply IH |].
  rewrite Forall_forall in Ha, Pl. apply Forall_forall.
  intros b Hb. apply HR; auto.
Qed.

Lemma select_rows rt (fs : list Filter) (c : Column) rows :
  fault rt = None → forallb accepted fs = true →
  ∃ l, select rt fs c rows = Success (Some l) ∧
       l ≡ₚ List.filter (matching fs) rows ∧
       StronglySorted (desc c) l.
Proof.
  intros Hf Hok. unfold select. rewrite Hf, Hok.
  eexists. split; [done |]. split.
  - apply merge_sort_Permutation.
  - apply StronglySorted_merge_sort; apply _.
Qed.

Lemma elem_of_filter_matching (fs : list Filter) rows n :
  n ∈ List.filter (matching fs) rows ↔ n ∈ rows ∧ matching fs n = true.
Proof. rewrite !list_elem_of_In. apply filter_In. Qed.

(** C4: when the service answers, [list()] returns exactly the active
    notes, most recently updated first, and leaves the table alone;
    [listDeleted()] returns no list at all: the service does not accept
    its filter [.is('deleted_at', 'not.null')], so it throws on every
    table. *)
Theorem listNotes_lists_active_listDeletedNotes_throws rt rows :
  (fault rt = None →
   ∃ l, listNotes rt rows = (Returned l, rows) ∧
        l ≡ₚ List.filter (λ n, bool_decide (deleted_at n = None)) rows ∧
        (∀ n, n ∈ l ↔ n ∈ rows ∧ active n) ∧
        StronglySorted
          (λ a b, (instant (updated_at b) ≤ instant (updated_at a))%Z) l) ∧
  (∃ msg, listDeletedNotes rt rows = (Thrown (Error msg), rows)) ∧
  (fault rt = None →
   listDeletedNotes rt rows
   = (Thrown (Error (message_or unparsable_filter
                       "Failed to fetch deleted notes")), rows)).
Proof.
  split; [|split].
  - intros Hf.
    destruct (select_rows rt [deleted_at_is_null] col_updated_at rows Hf)
      as (l & Hsel & Hperm & Hsorted); [done |].
    exists l. unfold listNotes. rewrite Hsel. simpl.
    split; [done |]. split; [|split].
    + rewrite Hperm. erewrite filter_ext; [done |].
      intros n. unfold matching. simpl. by rewrite andb_true_r.
    + intros n. rewrite Hperm, elem_of_filter_matching.
      unfold matching, active. simpl.
      by rewrite andb_true_r, bool_decide_eq_true.
    + exact Hsorted.
  - unfold listDeletedNotes, select. destruct (fault rt); by eexists.
  - intros Hf. unfold listDeletedNotes, select. by rewrite Hf.
Qed.

Lemma update_single_success rt (p : Patch) (fs : list Filter) rows n' rows' :
  update_single rt p fs rows = (Success n', rows') →
  rows' = patch_where rt p fs rows ∧
  ∃ n, n ∈ rows ∧ matching fs n = true ∧ n' = apply_patch rt p n.
Proof.
  unfold update_single, single. destruct (fault rt); [done |].
  destruct (forallb accepted fs); [| done].
  destruct (List.filter (matching fs) rows) as [|n [|? ?]] eqn:Hfl;
    simpl; [done | | done].
  intros [= <- <-]. split; [done |]. exists n. split; [|split; [|done]].
  - apply (elem_of_filter_matching fs rows n). rewrite Hfl. by left.
  - apply (elem_of_filter_matching fs rows n). rewrite Hfl. by left.
Qed.

End RepositoryListFacts.

(** C2 (as stated) fails: soft-deleting the id of a note that is already
    soft-deleted, or an id no note has, returns [true] and throws
    nothing. *)
Lemma deleteNote_of_inactive_id_succeeds :
  Scenario.binned ∈ Scenario.table ∧
  deleted_at Scenario.binned ≠ None ∧
  Repository.deleteNote Scenario.reachable "2024-05-10T12:00:00.000Z"
    (Some (id Scenario.binned)) Scenario.table
  = (Repository.Returned true, Scenario.table) ∧
  ("n9" ∉ map id Scenario.table) ∧
  Repository.deleteNote Scenario.reachable "2024-05-10T12:00:00.000Z"
    (Some "n9") Scenario.table
  = (Repository.Returned true, Scenario.table).
Proof.
  split; [by apply (bool_decide_unpack _); vm_compute |].
  split; [done |]. split; [by vm_compute |].
  split; [by apply (bool_decide_unpack _); vm_compute | by vm_compute].
Qed.

Lemma deleteNote_marks_active_else_noop_witness :
  id Scenario.zeta ≠ "" ∧ Store.fault Scenario.reachable = None ∧
  ∃ rows',
    Repository.deleteNote Scenario.reachable "2024-05-10T12:00:00.000Z"
      (Some (id Scenario.zeta)) Scenario.table
    = (Repository.Returned true, rows') ∧
    rows' = map (Repository.soft_deleted (id Scenario.zeta)
                   "2024-05-10T12:00:00.000Z") Scenario.table.
Proof.
  assert (Hid : id Scenario.zeta ≠ "") by done.
  assert (Hf : Store.fault Scenario.reachable = None) by reflexivity.
  split; [exact Hid |]. split; [exact Hf |].
  destruct (deleteNote_marks_active_else_noop Scenario.reachable
              "2024-05-10T12:00:00.000Z" (id Scenario.zeta) Scenario.table
              Hid Hf) as (rows' & Hrun & Hrows & _).
  by exists rows'.
Defined.

(** C5 (as stated) fails: a malformed id that is not empty draws no
    validation error; it is looked up like any other id, and the error is
    "Note not found". *)
Lemma getNote_of_malformed_id_is_not_found :
  Repository.getNote Scenario.reachable (Some "not-a-uuid!!") Scenario.table
  = (Repository.Thrown Repository.NotFoundError, Scenario.table) ∧
  ¬ Repository.ValidationError Repository.NotFoundError.
Proof. split; [by vm_compute |]. by intros [? | [? | ?]]. Qed.

Lemma getNote_finds_active_only_witness :
  Store.fault Scenario.reachable = None ∧
  NoDup (map id Scenario.table) ∧
  Repository.getNote Scenario.reachable (Some "n1") Scenario.table
  = (Repository.Returned Scenario.zeta, Scenario.table) ∧
  Repository.getNote Scenario.reachable (Some "n4") Scenario.table
  = (Repository.Thrown Repository.NotFoundError, Scenario.table) ∧
  Repository.getNote Scenario.reachable None Scenario.table
  = (Repository.Thrown Repository.IdRequired, Scenario.table).
Proof.
  assert (Hf : Store.fault Scenario.reachable = None) by reflexivity.
  assert (Hnd : NoDup (map id Scenario.table)).
  { by apply (bool_decide_unpack _); vm_compute. }
  split; [exact Hf |]. split; [exact Hnd |].
  destruct (getNote_finds_active_only Scenario.reachable Scenario.table
              Hf Hnd) as (Hmissing & _ & Hfound & Hnot & _).
  split; [|split].
  - apply (Hfound Scenario.zeta); [| done | done].
    by apply (bool_decide_unpack _); vm_compute.
  - apply (Hnot "n4"); [done |].
    intros n Hn Hid Hactive. unfold Scenario.table in Hn.
    repeat (apply elem_of_cons in Hn as [->|Hn]; [done |]).
    by apply elem_of_nil in Hn.
  - by apply (Hmissing None).
Defined.

Lemma listNotes_lists_active_listDeletedNotes_throws_witness :
  Store.fault Scenario.reachable = None ∧
  Repository.listNotes Scenario.reachable Scenario.table
  = (Repository.Returned [Scenario.alpha; Scenario.zeta], Scenario.table) ∧
  (∃ l, Repository.listNotes Scenario.reachable Scenario.table
        = (Repository.Returned l, Scenario.table) ∧
        ∀ n, n ∈ l ↔ n ∈ Scenario.table ∧ Repository.active n) ∧
  Repository.listDeletedNotes Scenario.reachable Scenario.table
  = (Repository.Thrown
       (Repository.Error (Store.message Store.unparsable_filter)),
     Scenario.table).
Proof.
  assert (Hf : Store.fault Scenario.reachable = None) by reflexivity.
  split; [exact Hf |]. split; [by vm_compute |].
  destruct (listNotes_lists_active_listDeletedNotes_throws
              Scenario.reachable Scenario.table) as (Hlist & _ & Hdeleted).
  split.
  - destruct (Hlist Hf) as (l & Hrun & _ & Hmem & _). by exists l.
  - exact (Hdeleted Hf).
Defined.

Lemma pipeline_total_tolerates_malformed_witness :
  Pipeline.malformed Scenario.undated ∧
  Pipeline.output
    (Pipeline.applyFiltersAndSort Scenario.now 0%nat "" Scenario.no_filters)
    {[ 0%nat := [Scenario.zeta; Scenario.undated] ]}
  = [Scenario.undated; Scenario.zeta] ∧
  ∃ r h',
    Pipeline.applyFiltersAndSort Scenario.now 0%nat "" Scenario.created_today
      {[ 0%nat := [Scenario.zeta; Scenario.undated] ]} = (r, h') ∧
    Scenario.undated ∉ Pipeline.elements r h'.
Proof.
  assert (Hbad : Pipeline.malformed Scenario.undated) by (by vm_compute).
  split; [exact Hbad |]. split; [by vm_compute |].
  destruct (pipeline_total_tolerates_malformed Scenario.now 0%nat ""
              Scenario.created_today
              {[ 0%nat := [Scenario.zeta; Scenario.undated] ]})
    as (r & h' & Hrun & Htol).
  exists r, h'. split; [exact Hrun |].
  by apply (Htol Scenario.undated Hbad).
Defined.

(** The scenarios of the design: "Zeta" updated three days ago and "Alpha"
    updated now come out as Alpha, Zeta both alphabetically and by recency;
    restricted to notes created today, none is left. *)
Example scenario_alphabetical_and_recent :
  map title
    (Pipeline.output
       (Pipeline.applyFiltersAndSort Scenario.now 0%nat ""
          (Pipeline.with_sort Pipeline.alphabetical Scenario.no_filters))
       Scenario.heap)
  = ["Alpha"; "Zeta"] ∧
  map title
    (Pipeline.output
       (Pipeline.applyFiltersAndSort Scenario.now 0%nat ""
          Scenario.no_filters)
       Scenario.heap)
  = ["Alpha"; "Zeta"] ∧
  Pipeline.output
    (Pipeline.applyFiltersAndSort Scenario.now 0%nat ""
       Scenario.created_today)
    Scenario.heap
  = [].
Proof. split; [by vm_compute |]. split; by vm_compute. Qed.

(** Updating a soft-deleted note is "Note not found"; the service turns
    down the request to restore it. *)
Example scenario_update_and_restore_binned :
  fst (Repository.updateNote Scenario.reachable (Some "n4")
         {| Repository.patch_title := Some "Kept";
            Repository.patch_body := None;
            Repository.patch_tags := None |} Scenario.table)
  = Repository.Thrown Repository.NotFoundError ∧
  Repository.restoreNote Scenario.reachable (Some "n4") Scenario.table
  = (Repository.Thrown
       (Repository.Error (Store.message Store.unparsable_filter)),
     Scenario.table).
Proof. split; by vm_compute. Qed.

(** * Further properties *)

(** ** The repository: failures, invariants, composition *)

Section RepositoryEffects.
Import Store Repository Purge Effects.
Context `{Engine}.

Implicit Types (rows : list Note) (n m : Note) (s : string)
  (rt : RoundTrip) (i : option string).

Lemma message_or_nonempty (e : PostgrestError) (fallback : string) :
  fallback ≠ "" → message_or e fallback ≠ "".
Proof.
  intros Hfb. unfold message_or.
  destruct (String.eqb (message e) "") eqn:E; [done |].
  by apply String.eqb_neq.
Qed.

Lemma update_single_failure rt (p : Patch) (fs : list Filter) rows e rows' :
  update_single rt p fs rows = (Failure e, rows') → rows' = rows.
Proof.
  unfold update_single. destruct (fault rt); [by intros [= _ <-] |].
  destruct (forallb accepted fs); [| by intros [= _ <-]].
  destruct (single _); by intros [= <-].
Qed.

Lemma insert_single_failure rt (p : Payload) rows e rows' :
  insert_single rt p rows = (Failure e, rows') → rows' = rows.
Proof.
  unfold insert_single. destruct (fault rt); [by intros [= _ <-] |].
  case_bool_decide; [by intros [= _ <-] | done].
Qed.

Lemma id_value_some i : missing i = false → i = Some (id_value i) ∧ id_value i ≠ "".
Proof.
  destruct i as [s|]; [| done]. simpl. intros Hs.
  split; [done |]. by apply String.eqb_neq.
Qed.

(** X1: an operation that throws leaves the table as it was, and the
    error it throws never has an empty message. *)
Theorem failed_operation_changes_nothing rt (op : Operation) rows msg :
  failure rt op rows = Some msg →
  table_after rt op rows = rows ∧ msg ≠ "".
Proof.
  destruct op as [input | i patch | now i | i | i]; simpl.
  - unfold createNote.
    destruct (String.eqb _ ""); [by intros [= <-] |].
    destruct (insert_single rt _ rows) as [[d|e] rows'] eqn:I; [done |].
    simpl. intros [= <-]. split.
    + by eapply insert_single_failure.
    + by apply message_or_nonempty.
  - unfold updateNote.
    destruct (missing i); [by intros [= <-] |].
    case_bool_decide; [by intros [= <-] |].
    destruct (update_single rt _ _ rows) as [[d|e] rows'] eqn:U; [done |].
    apply update_single_failure in U as ->.
    destruct (String.eqb (code e) "PGRST116"); simpl; intros [= <-];
      (split; [done |]); [done | by apply message_or_nonempty].
  - unfold deleteNote, update.
    destruct (missing i); [by intros [= <-] |].
    destruct (fault rt); [| done].
    simpl. intros [= <-]. split; [done | by apply message_or_nonempty].
  - unfold restoreNote.
    destruct (missing i); [by intros [= <-] |].
    destruct (update_single rt _ _ rows) as [[d|e] rows'] eqn:U; [done |].
    apply update_single_failure in U as ->.
    simpl. intros [= <-]. split; [done | by apply message_or_nonempty].
  - unfold permanentlyDeleteNote, delete.
    destruct (missing i); [by intros [= <-] |].
    destruct (fault rt); [| done].
    simpl. intros [= <-]. split; [done | by apply message_or_nonempty].
Qed.

Lemma NoDup_filter_ids (p : Note → bool) rows :
  NoDup (map id rows) → NoDup (map id (List.filter p rows)).
Proof.
  induction rows as [|x rows IH]; simpl; [done |].
  rewrite NoDup_cons. intros [Hx Hnd].
  destruct (p x); simpl; [| by apply IH].
  apply NoDup_cons. split; [| by apply IH].
  intros Hin. apply Hx.
  apply list_elem_of_In, in_map_iff in Hin as (y & Hy & Hin).
  apply filter_In in Hin as [Hin _].
  apply list_elem_of_In, in_map_iff. by exists y.
Qed.

(** X2: every operation keeps the ids of the table distinct, whether it
    succeeds or throws. *)
Theorem operations_keep_ids_unique rt (op : Operation) rows :
  NoDup (map id rows) → NoDup (map id (table_after rt op rows)).
Proof.
  intros Hnd.
  destruct op as [input | i patch | now i | i | i]; simpl.
  - unfold createNote, insert_single.
    destruct (String.eqb _ ""); [done |].
    destruct (fault rt); [done |].
    case_bool_decide as Hfresh; [done |]. simpl.
    rewrite map_app. simpl. apply NoDup_app. split; [done |]. split.
    + intros x Hx [->|[]%elem_of_nil]%elem_of_cons. by apply Hfresh.
    + apply NoDup_singleton.
  - unfold updateNote.
    destruct (missing i); [done |]. case_bool_decide; [done |].
    destruct (update_single rt _ _ rows) as [[d|e] rows'] eqn:U.
    + apply update_single_success in U as [-> _].
      simpl. by rewrite patch_where_ids.
    + apply update_single_failure in U as ->.
      by destruct (String.eqb _ _).
  - unfold deleteNote, update.
    destruct (missing i); [done |]. destruct (fault rt); [done |].
    simpl. by rewrite patch_where_ids.
  - unfold restoreNote.
    destruct (missing i); [done |].
    destruct (update_single rt _ _ rows) as [[d|e] rows'] eqn:U.
    + apply update_single_success in U as [-> _].
      simpl. by rewrite patch_where_ids.
    + by apply update_single_failure in U as ->.
  - unfold permanentlyDeleteNote, delete.
    destruct (missing i); [done |]. destruct (fault rt); [done |].
    simpl. by apply NoDup_filter_ids.
Qed.

Lemma elem_of_map_id rows m : m ∈ rows → id m ∈ map id rows.
Proof. intros Hm. apply list_elem_of_In, in_map, list_elem_of_In, Hm. Qed.

Lemma patch_where_no_match rt (p : Patch) (fs : list Filter) rows :
  (∀ m, m ∈ rows → matching fs m = false) → patch_where rt p fs rows = rows.
Proof.
  intros Hno. unfold patch_where. rewrite <- (map_id rows) at 2.
  apply map_ext_in. intros m Hm%list_elem_of_In. by rewrite (Hno m Hm).
Qed.

(** With distinct ids, patching the row that has the id of [n] replaces
    that row and no other. *)
Lemma patch_where_one_row rt (p : Patch) (fs : list Filter) rows n :
  NoDup (map id rows) → n ∈ rows → matching fs n = true →
  (∀ m, matching fs m = true → id m = id n) →
  id (apply_patch rt p n) = id n →
  patch_where rt p fs rows = replace_row (apply_patch rt p n) rows.
Proof.
  intros Hnd Hn Hmatch Hid Hsame. unfold patch_where, replace_row.
  apply map_ext_in. intros m Hm%list_elem_of_In. rewrite Hsame.
  destruct (matching fs m) eqn:Hmm.
  - rewrite (same_id_same_row rows n m Hnd Hn Hm (Hid m Hmm)).
    by rewrite String.eqb_refl.
  - destruct (String.eqb (id m) (id n)) eqn:Heq; [| done].
    apply String.eqb_eq in Heq.
    rewrite (same_id_same_row rows n m Hnd Hn Hm Heq) in Hmm. congruence.
Qed.

Lemma elem_of_replace_row_other (n' : Note) rows m :
  id m ≠ id n' → m ∈ replace_row n' rows ↔ m ∈ rows.
Proof.
  intros Hne. unfold replace_row. rewrite !list_elem_of_In, in_map_iff.
  split.
  - intros (x & Hx & Hin). destruct (String.eqb (id x) (id n')); by subst.
  - intros Hin. exists m. split; [| done].
    by rewrite (proj2 (String.eqb_neq _ _) Hne).
Qed.

Lemma not_blank_title (patch : NotePatch) :
  ¬ blank_title patch →
  bool_decide (set_title (update_data patch) = Some "") = false.
Proof.
  intros Hnb. apply bool_decide_eq_false. intros Heq. apply Hnb.
  unfold update_data in Heq. simpl in Heq.
  destruct (patch_title patch) as [t|] eqn:Et; [| done].
  exists t. split; [done |]. by injection Heq.
Qed.

Lemma apply_update_data rt (patch : NotePatch) n :
  apply_patch rt (update_data patch) n = revised patch n.
Proof. done. Qed.

Lemma updateNote_run rt s (patch : NotePatch) rows :
  s ≠ "" → fault rt = None → ¬ blank_title patch →
  updateNote rt (Some s) patch rows
  = match List.filter (matching [eq_id s; deleted_at_is_null]) rows with
    | [n] => (Returned (revised patch n),
              patch_where rt (update_data patch)
                [eq_id s; deleted_at_is_null] rows)
    | _ => (Thrown NotFoundError, rows)
    end.
Proof.
  intros Hs Hf Hnb. unfold updateNote.
  rewrite (missing_some s Hs).
  change {| set_title := trim <$> patch_title patch;
            set_body := trim <$> patch_body patch;
            set_tags := patch_tags patch;
            set_deleted_at := None |} with (update_data patch).
  rewrite (not_blank_title patch Hnb).
  unfold update_single, single. rewrite Hf. simpl id_value.
  destruct (List.filter _ rows) as [|n [|? ?]]; simpl; [done | | done].
  by rewrite apply_update_data.
Qed.

(** X3: updating an active note succeeds when its new title is not blank;
    the note comes back with the trimmed content of the patch, its id,
    its stamps and active state kept, and no other row of the table
    changes. *)
Theorem updateNote_revises_one_note rt (patch : NotePatch) rows n :
  fault rt = None → NoDup (map id rows) →
  n ∈ rows → id n ≠ "" → active n → ¬ blank_title patch →
  let n' := revised patch n in
  updateNote rt (Some (id n)) patch rows = (Returned n', replace_row n' rows) ∧
  n' ∈ replace_row n' rows ∧
  (∀ m, id m ≠ id n → m ∈ replace_row n' rows ↔ m ∈ rows) ∧
  id n' = id n ∧ created_at n' = created_at n ∧
  updated_at n' = updated_at n ∧ active n'.
Proof.
  intros Hf Hnd Hn Hid Ha Hnb n'.
  assert (Hmatch : matching [eq_id (id n); deleted_at_is_null] n = true)
    by (by apply matching_active).
  split; [|split; [|split]].
  - rewrite updateNote_run by done.
    rewrite (filter_unique _ rows n); [| done | done | done |].
    + f_equal. rewrite (patch_where_one_row _ _ _ rows n); try done.
      by intros m [? _]%matching_active.
    + by intros m [? _]%matching_active.
  - unfold replace_row. apply list_elem_of_In, in_map_iff.
    exists n. split; [| by apply list_elem_of_In].
    subst n'. simpl. by rewrite String.eqb_refl.
  - intros m Hm. by apply elem_of_replace_row_other.
  - done.
Qed.

(** X4: updating an id that no active note has (a soft-deleted note, or no
    note at all) throws "Note not found" and leaves the table as it
    was. *)
Theorem updateNote_of_inactive_id_not_found rt s (patch : NotePatch) rows :
  fault rt = None → s ≠ "" → ¬ blank_title patch →
  (∀ m, m ∈ rows → id m = s → ¬ active m) →
  updateNote rt (Some s) patch rows = (Thrown NotFoundError, rows).
Proof.
  intros Hf Hs Hnb Hno. rewrite updateNote_run by done.
  rewrite filter_none; [done |].
  intros m Hm. destruct (matching _ m) eqn:Hmm; [| done].
  apply matching_active in Hmm as [Hid Ha]. by destruct (Hno m Hm Hid).
Qed.

(** X5: a note that was created can be read back: with the service
    answering and a new, non-empty id, [createNote] returns the note with
    trimmed title and body, the given tags and no deletion stamp, adds it
    to the table, and [getNote] on its id returns that same note. *)
Theorem createNote_then_getNote rt rt' (input : CreateInput) rows :
  fault rt = None → fault rt' = None → NoDup (map id rows) →
  generated_id rt ≠ "" → generated_id rt ∉ map id rows →
  trim (in_title input) ≠ "" →
  ∃ n,
    createNote rt input rows = (Returned n, (rows ++ [n])%list) ∧
    id n = generated_id rt ∧
    title n = trim (in_title input) ∧ body n = trim (in_body input) ∧
    tags n = in_tags input ∧ active n ∧
    created_at n = updated_at n ∧
    getNote rt' (Some (id n)) (rows ++ [n])%list
    = (Returned n, (rows ++ [n])%list).
Proof.
  intros Hf Hf' Hnd Hid Hfresh Htitle.
  eexists. split.
  - unfold createNote, insert_single. simpl.
    rewrite (proj2 (String.eqb_neq _ _) Htitle), Hf.
    by rewrite bool_decide_eq_false_2.
  - repeat (split; [done |]).
    apply getNote_active; try done.
    + rewrite map_app. simpl. apply NoDup_app. split; [done |]. split.
      * intros x Hx [->|[]%elem_of_nil]%elem_of_cons. by apply Hfresh.
      * apply NoDup_singleton.
    + apply elem_of_app. right. by left.
Qed.

(** X6: soft-deleting twice is the same as once: the second call returns
    [true] again and changes nothing, so the first deletion stamp
    stays. *)
Theorem deleteNote_twice_is_once rt1 rt2 now1 now2 s rows :
  s ≠ "" → fault rt1 = None → fault rt2 = None →
  ∃ rows1,
    deleteNote rt1 now1 (Some s) rows = (Returned true, rows1) ∧
    deleteNote rt2 now2 (Some s) rows1 = (Returned true, rows1).
Proof.
  intros Hs Hf1 Hf2. eexists. split; [by apply deleteNote_run |].
  rewrite deleteNote_run by done. f_equal.
  apply patch_where_no_match. intros m Hm.
  destruct (matching _ m) eqn:Hmm; [| done].
  apply matching_active in Hmm as [Hid Ha].
  by destruct (soft_delete_leaves_none_active rt1 now1 s rows m Hm Hid).
Qed.

Lemma elem_of_without s rows m : m ∈ without s rows ↔ m ∈ rows ∧ id m ≠ s.
Proof.
  unfold without. rewrite !list_elem_of_In, filter_In.
  by rewrite negb_true_iff, String.eqb_neq.
Qed.

(** X8: permanent deletion removes every row with the id, whatever its
    state, and keeps the others in order; it returns [true] also when no
    note has the id, in which case nothing changes; afterwards neither
    [getNote] nor [restoreNote] finds the id. *)
Theorem permanentlyDeleteNote_removes_for_good rt rt' s rows :
  s ≠ "" → fault rt = None → fault rt' = None →
  permanentlyDeleteNote rt (Some s) rows = (Returned true, without s rows) ∧
  (∀ m, m ∈ without s rows ↔ m ∈ rows ∧ id m ≠ s) ∧
  ((∀ m, m ∈ rows → id m ≠ s) → without s rows = rows) ∧
  getNote rt' (Some s) (without s rows)
  = (Thrown NotFoundError, without s rows) ∧
  ∃ e, restoreNote rt' (Some s) (without s rows) = (Thrown e, without s rows).
Proof.
  intros Hs Hf Hf'. split; [|split; [|split; [|split]]].
  - unfold permanentlyDeleteNote, delete.
    rewrite (missing_some s Hs), Hf. simpl. do 2 f_equal.
    unfold without. apply filter_ext. intros m. by rewrite andb_true_r.
  - intros m. apply elem_of_without.
  - intros Hno. unfold without. rewrite <- (filter_all rows) at 2.
    apply filter_ext_in. intros m Hm%list_elem_of_In.
    by rewrite negb_true_iff, String.eqb_neq; apply Hno.
  - apply getNote_inactive; [done | done |].
    by intros m [_ Hne]%elem_of_without Hid.
  - eexists. by apply restoreNote_run.
Qed.

End RepositoryEffects.

(** ** The repository: who writes [updated_at] *)

Section RepositoryStamps.
Import Store Repository Effects.
Context `{Engine}.

Implicit Types (rows : list Note) (n : Note) (rt : RoundTrip)
  (i : option string).


End RepositoryStamps.

Section RepositoryLists.
Import Store Repository Effects.
Context `{Service}.

Implicit Types (rows : list Note) (n m : Note) (rt : RoundTrip).

Lemma listNotes_members rt rows :
  fault rt = None →
  ∃ l, listNotes rt rows = (Returned l, rows) ∧
       ∀ m, m ∈ l ↔ m ∈ rows ∧ active m.
Proof.
  intros Hf.
  destruct (select_rows rt [deleted_at_is_null] col_updated_at rows Hf)
    as (l & Hsel & Hperm & _); [done |].
  exists l. unfold listNotes. rewrite Hsel. split; [done |].
  intros m. rewrite Hperm, elem_of_filter_matching.
  unfold matching, active. simpl.
  by rewrite andb_true_r, bool_decide_eq_true.
Qed.

Lemma elem_of_replace_row (n' : Note) rows n m :
  NoDup (map id rows) → n ∈ rows → id n' = id n →
  m ∈ replace_row n' rows ↔ m = n' ∨ (m ∈ rows ∧ m ≠ n).
Proof.
  intros Hnd Hn Hid. unfold replace_row.
  rewrite list_elem_of_In, in_map_iff. split.
  - intros (x & Hx & Hin%list_elem_of_In).
    destruct (String.eqb (id x) (id n')) eqn:E; [by left |].
    subst x. right. split; [done |]. intros ->.
    rewrite Hid, String.eqb_refl in E. done.
  - intros [->|[Hm Hne]].
    + exists n. rewrite Hid, String.eqb_refl.
      split; [done | by apply list_elem_of_In].
    + exists m. split; [| by apply list_elem_of_In].
      destruct (String.eqb (id m) (id n')) eqn:E; [| done].
      apply String.eqb_eq in E. rewrite Hid in E.
      by destruct (Hne (same_id_same_row rows n m Hnd Hn Hm E)).
Qed.

(** X9: a soft delete hides the note and keeps it: afterwards [list()]
    holds the active notes of before without that note, while the table
    still holds every row of before, that note now with its deletion
    stamp. *)
Theorem deleteNote_hides_note_from_list rt rt' now rows n :
  fault rt = None → fault rt' = None → NoDup (map id rows) →
  n ∈ rows → id n ≠ "" → active n →
  ∃ rows1 shown,
    deleteNote rt now (Some (id n)) rows = (Returned true, rows1) ∧
    listNotes rt' rows1 = (Returned shown, rows1) ∧
    (∀ m, m ∈ shown ↔ m ∈ rows ∧ active m ∧ m ≠ n) ∧
    (∀ m, m ∈ rows1 ↔
          m = with_deleted_at (Some now) n ∨ (m ∈ rows ∧ m ≠ n)) ∧
    map id rows1 = map id rows.
Proof.
  intros Hf Hf' Hnd Hn Hid Ha.
  set (n' := with_deleted_at (Some now) n).
  assert (Hrows : patch_where rt (soft_delete_patch now)
                    [eq_id (id n); deleted_at_is_null] rows
                  = replace_row n' rows).
  { rewrite (patch_where_one_row _ _ _ rows n); try done.
    - by apply matching_active.
    - by intros m [? _]%matching_active. }
  assert (Hmem : ∀ m, m ∈ replace_row n' rows ↔ m = n' ∨ (m ∈ rows ∧ m ≠ n)).
  { intros m. by apply elem_of_replace_row. }
  destruct (listNotes_members rt' (replace_row n' rows) Hf')
    as (shown & Hshown & Hs).
  exists (replace_row n' rows), shown.
  split; [by rewrite deleteNote_run, Hrows |].
  split; [done |]. split; [|split; [done |]].
  - intros m. rewrite Hs, Hmem. split.
    + intros [[->|[Hm Hne]] Hact]; [done | done].
    + intros (Hm & Hact & Hne). split; [by right | done].
  - rewrite <- Hrows. apply patch_where_ids.
Qed.

End RepositoryLists.

(** ** The query pipeline: order, stability, what is shown *)

Section PipelineOrder.
Import Pipeline HomeScreen Shown.
Context `{Engine} `{Sorter}.

Implicit Types (h : gmap nat (list Note)) (a : ref) (l : list Note)
  (f : FilterOptions) (n x y : Note).

(** X10: when the time stamps of the notes parse, the list shown under
    [recent] or [mostEdited] runs from the most to the least recently
    updated note, and under [oldest] from the first to the last
    created. *)
Theorem pipeline_output_in_time_order now a q f h :
  Forall (λ n, is_Some (Date_parse (updated_at n)) ∧
               is_Some (Date_parse (created_at n))) (elements a h) →
  (sortBy f = recent ∨ sortBy f = mostEdited →
   StronglySorted
     (λ x y, (stamp (updated_at y) ≤ stamp (updated_at x))%Z)
     (output (applyFiltersAndSort now a q f) h)) ∧
  (sortBy f = oldest →
   StronglySorted
     (λ x y, (stamp (created_at x) ≤ stamp (created_at y))%Z)
     (output (applyFiltersAndSort now a q f) h)).
Proof.
  intros Hparse. rewrite output_spec.
  pose proof (filter_Forall _ (selects now q f) _ Hparse) as Hsel.
  split.
  - intros Hsort.
    assert (comparator (sortBy f) = by_updated_desc) as ->
      by (by destruct Hsort as [-> | ->]).
    apply sort_by_updated_desc.
    eapply Forall_impl; [exact Hsel |]. by intros n [? _].
  - intros ->. simpl comparator.
    apply sort_by_created_asc.
    eapply Forall_impl; [exact Hsel |]. by intros n [_ ?].
Qed.

(** X11: on stamps that parse, sorting is stable: under [recent] and
    [mostEdited] the notes whose [updated_at] reads as the same instant
    come out in the order they had in the input; under [oldest] the same
    holds for [created_at]. *)
Theorem sortNotes_is_stable a h (t : Z) :
  (Forall (λ n, is_Some (Date_parse (updated_at n))) (elements a h) →
   ∀ s, s = recent ∨ s = mostEdited →
     List.filter (λ n, bool_decide (Date_parse (updated_at n) = Some t))
       (output (sortNotes a s) h)
     = List.filter (λ n, bool_decide (Date_parse (updated_at n) = Some t))
         (elements a h)) ∧
  (Forall (λ n, is_Some (Date_parse (created_at n))) (elements a h) →
   List.filter (λ n, bool_decide (Date_parse (created_at n) = Some t))
     (output (sortNotes a oldest) h)
   = List.filter (λ n, bool_decide (Date_parse (created_at n) = Some t))
       (elements a h)).
Proof.
  assert (Hout : ∀ s, output (sortNotes a s) h
                      = Array_prototype_sort (comparator s) (elements a h)).
  { intros s. unfold output.
    destruct (sortNotes a s h) as [r h'] eqn:E.
    apply sortNotes_spec in E as (_ & _ & L). by apply elements_lookup. }
  split.
  - intros Hparse s Hs. rewrite Hout.
    assert (comparator s = by_updated_desc) as ->
      by (by destruct Hs as [-> | ->]).
    rewrite (proj1 (sort_by_updated_desc _ Hparse)).
    apply sorted_by_filter.
    intros x y Hx%bool_decide_eq_true Hy%bool_decide_eq_true.
    unfold behind, by_updated_desc. rewrite Hx, Hy. simpl.
    by rewrite Z.sub_diag.
  - intros Hparse. rewrite Hout. simpl comparator.
    rewrite (proj1 (sort_by_created_asc _ Hparse)).
    apply sorted_by_filter.
    intros x y Hx%bool_decide_eq_true Hy%bool_decide_eq_true.
    unfold behind, by_created_asc. rewrite Hx, Hy. simpl.
    by rewrite Z.sub_diag.
Qed.

End PipelineOrder.

Section PipelineShown.
Import Pipeline HomeScreen Shown.
Context `{Engine} `{Sorter}.

Implicit Types (h : gmap nat (list Note)) (a : ref) (l : list Note)
  (f : FilterOptions) (n : Note).

Lemma truthy_spec (s : string) : truthy s = true ↔ s ≠ "".
Proof. unfold truthy. by rewrite negb_true_iff, String.eqb_neq. Qed.

Lemma matchesSearch_spec q n :
  (if truthy (trim q) then matchesSearch q n else true) = true
  ↔ text_matches q n.
Proof.
  unfold text_matches, matchesSearch.
  destruct (truthy (trim q)) eqn:Hq.
  - apply truthy_spec in Hq.
    rewrite orb_true_iff, andb_true_iff, truthy_spec. tauto.
  - apply not_true_iff_false in Hq. rewrite truthy_spec in Hq.
    split; [| done]. intros _. left.
    by destruct (decide (trim q = "")).
Qed.

Lemma hasSelectedTag_spec (selected : list string) n :
  (if (0 <? length selected)%nat then hasSelectedTag selected n else true)
  = true ↔ tag_matches selected n.
Proof.
  unfold tag_matches, hasSelectedTag.
  destruct selected as [|t0 sel]; simpl (0 <? _)%nat; cbv iota.
  { split; [by left | done]. }
  split.
  - intros Hex. right. destruct (tags n) as [ts|]; [| done].
    apply existsb_exists in Hex as (t & Ht & Hin).
    exists t, ts. split; [by apply list_elem_of_In |].
    split; [done | by apply bool_decide_eq_true in Hin].
  - intros [? | (t & ts & Ht & -> & Hin)]; [done |].
    apply existsb_exists. exists t.
    split; [by apply list_elem_of_In | by apply bool_decide_eq_true].
Qed.

Lemma hasTags_spec n : hasTags n = true ↔ tagged n.
Proof.
  unfold hasTags, tagged. destruct (tags n) as [[|t ts]|]; simpl.
  - split; [done |]. by intros (? & [= <-] & ?).
  - split; [| done]. intros _. by eexists.
  - split; [done |]. by intros (? & ? & ?).
Qed.

Lemma isLong_spec n : isLong n = true ↔ long n.
Proof.
  unfold isLong, long. rewrite andb_true_iff, truthy_spec, Nat.leb_le.
  split; [by intros [_ ?] |]. intros Hlen. split; [| done].
  intros Hb. rewrite Hb in Hlen. simpl in Hlen. lia.
Qed.

Lemma filter_sublist_mono (p q : Note → bool) l :
  (∀ x, p x = true → q x = true) →
  sublist (List.filter p l) (List.filter q l).
Proof.
  intros Hpq. induction l as [|x l IH]; simpl; [done |].
  destruct (p x) eqn:Hp.
  - rewrite (Hpq x Hp). by constructor.
  - destruct (q x); [by constructor | done].
Qed.

(** X12: the list shown holds exactly the notes of the input that pass
    every filter in force: the search text (when not blank) occurs in the
    title or body, the note falls in the date window, carries at least one
    of the selected tags (when any is selected), has a tag (when only
    tagged notes are asked for) and a body of 100 characters or more (when
    only long notes are asked for); no note is invented or repeated. *)
Theorem pipeline_shows_exactly_the_matching_notes now a q f h :
  (∀ n, n ∈ output (applyFiltersAndSort now a q f) h ↔
        n ∈ elements a h ∧
        text_matches q n ∧
        createdWithin now (dateFilter f) n = true ∧
        tag_matches (selectedTags f) n ∧
        (withTagsOnly f = true → tagged n) ∧
        (longNotesOnly f = true → long n)) ∧
  output (applyFiltersAndSort now a q f) h ⊆+ elements a h.
Proof.
  rewrite output_spec. split.
  - intros n. rewrite sort_permutes, elem_of_filter_bool.
    unfold selects, keeps. rewrite !andb_true_iff.
    rewrite matchesSearch_spec, hasSelectedTag_spec.
    destruct (withTagsOnly f), (longNotesOnly f);
      rewrite ?hasTags_spec, ?isLong_spec; intuition congruence.
  - rewrite sort_permutes. apply sublist_submseteq.
    rewrite <- (filter_all (elements a h)) at 2.
    by apply filter_sublist_mono.
Qed.

(** X13: the date windows are nested: what [today] keeps, [thisWeek]
    keeps; what [thisWeek] keeps, [thisMonth] keeps; each result is the
    input with some notes left out, in the input's order. *)
Theorem date_windows_are_nested now a h :
  sublist (output (filterByDate now a today) h)
    (output (filterByDate now a thisWeek) h) ∧
  sublist (output (filterByDate now a thisWeek) h)
    (output (filterByDate now a thisMonth) h) ∧
  sublist (output (filterByDate now a thisMonth) h)
    (output (filterByDate now a all) h) ∧
  output (filterByDate now a all) h = elements a h.
Proof.
  assert (Hout : ∀ df, output (filterByDate now a df) h
                       = List.filter (createdWithin now df) (elements a h)).
  { intros df. unfold output.
    destruct (filterByDate now a df h) as [r h'] eqn:E.
    by apply filterByDate_spec in E as [_ L]. }
  rewrite !Hout.
  assert (Hle : ∀ (x : option Z) (b b' : Z),
            (b' ≤ b)%Z → at_or_after x b = true → at_or_after x b' = true).
  { intros [t|] b b' Hb; simpl; [| done]. rewrite !Z.leb_le. lia. }
  split; [|split; [|split]].
  - apply filter_sublist_mono. intros n. unfold createdWithin.
    apply Hle. lia.
  - apply filter_sublist_mono. intros n. unfold createdWithin.
    apply Hle. lia.
  - by apply filter_sublist_mono.
  - unfold createdWithin. apply filter_all.
Qed.

(** X14: when [hasActiveFilters()] is false every note is shown, sorted
    with the comparator on [updated_at]: most recently updated first when
    the stamps parse; and right after [clearAllFilters()] it is false (for
    a [trim] that leaves the empty string empty). *)
Theorem no_active_filters_shows_every_note now a (c : Criteria) h :
  (hasActiveFilters c = false →
   output (applyFiltersAndSort now a (searchQuery c) (filters c)) h
   = Array_prototype_sort by_updated_desc (elements a h) ∧
   output (applyFiltersAndSort now a (searchQuery c) (filters c)) h
   ≡ₚ elements a h ∧
   (Forall (λ n, is_Some (Date_parse (updated_at n))) (elements a h) →
    output (applyFiltersAndSort now a (searchQuery c) (filters c)) h
    = sorted_by by_updated_desc (elements a h))) ∧
  (trim "" = "" → hasActiveFilters (clearAllFilters c) = false).
Proof.
  split.
  - unfold hasActiveFilters. rewrite !orb_false_iff.
    intros (((((Hq & Hdate) & Htags) & Hwith) & Hlong) & Hsort).
    apply negb_false_iff in Hq.
    apply bool_decide_eq_false in Hdate, Hsort.
    assert (Hd : dateFilter (filters c) = all)
      by (by destruct (decide (dateFilter (filters c) = all))).
    assert (Hs : sortBy (filters c) = recent)
      by (by destruct (decide (sortBy (filters c) = recent))).
    assert (E : output (applyFiltersAndSort now a (searchQuery c)
                          (filters c)) h
                = Array_prototype_sort by_updated_desc (elements a h)).
    { rewrite output_spec, Hs. simpl comparator. f_equal.
      rewrite <- (filter_all (elements a h)) at 2.
      apply filter_ext. intros n. unfold selects, keeps, truthy.
      by rewrite Hd, Hq, Htags, Hwith, Hlong. }
    split; [exact E |]. rewrite E. split; [apply sort_permutes |].
    intros Hparse. by apply sort_by_updated_desc.
  - intros Htrim. unfold hasActiveFilters, clearAllFilters. simpl.
    by rewrite Htrim.
Qed.

End PipelineShown.

(** ** The tags offered by the filter sheet *)

Section CollectedTags.
Import Pipeline HomeScreen.
Context `{Engine}.

Implicit Types (s ts : list string) (t x : string) (notes : list Note).

Lemma add_tag_spec s t :
  (NoDup s → NoDup (add_tag s t)) ∧
  (∀ x, x ∈ add_tag s t ↔ x ∈ s ∨ (x = t ∧ t ≠ "")).
Proof.
  unfold add_tag, Set_add.
  destruct (truthy t) eqn:Ht.
  - apply truthy_spec in Ht. case_bool_decide as Hin.
    + split; [done |]. intros x. split; [by left |].
      by intros [? | [-> _]].
    + split.
      * intros Hnd. apply NoDup_app. split; [done |]. split.
        -- by intros x Hx [-> | []%elem_of_nil]%elem_of_cons.
        -- apply NoDup_singleton.
      * intros x. rewrite elem_of_app, list_elem_of_singleton. tauto.
  - apply not_true_iff_false in Ht. rewrite truthy_spec in Ht.
    split; [done |]. intros x. split; [by left |].
    by intros [? | [_ ?]].
Qed.

Lemma add_tags_spec ts s :
  (NoDup s → NoDup (fold_left add_tag ts s)) ∧
  (∀ x, x ∈ fold_left add_tag ts s ↔ x ∈ s ∨ (x ∈ ts ∧ x ≠ "")).
Proof.
  revert s. induction ts as [|t ts IH]; intros s; simpl.
  - split; [done |]. intros x. split; [by left |].
    by intros [? | [[]%elem_of_nil _]].
  - destruct (IH (add_tag s t)) as [Hnd Hmem].
    destruct (add_tag_spec s t) as [Hnd1 Hmem1].
    split; [by auto |]. intros x.
    rewrite Hmem, Hmem1, elem_of_cons. split.
    + intros [[? | [-> ?]] | [? ?]]; auto.
    + intros [? | [[-> | ?] ?]]; auto.
Qed.

Lemma collect_spec notes s :
  (NoDup s → NoDup (fold_left add_note_tags notes s)) ∧
  (∀ x, x ∈ fold_left add_note_tags notes s ↔
        x ∈ s ∨ (x ≠ "" ∧ ∃ n ts, n ∈ notes ∧ tags n = Some ts ∧ x ∈ ts)).
Proof.
  revert s. induction notes as [|n notes IH]; intros s; simpl.
  - split; [done |]. intros x. split; [by left |].
    by intros [? | (_ & ? & ? & []%elem_of_nil & _)].
  - destruct (IH (add_note_tags s n)) as [Hnd Hmem].
    assert (Hstep : (NoDup s → NoDup (add_note_tags s n)) ∧
              ∀ x, x ∈ add_note_tags s n ↔
                   x ∈ s ∨ (x ≠ "" ∧ ∃ ts, tags n = Some ts ∧ x ∈ ts)).
    { unfold add_note_tags. destruct (tags n) as [ts|].
      - destruct (add_tags_spec ts s) as [Hnd' Hmem'].
        split; [done |]. intros x. rewrite Hmem'. split.
        + intros [? | [? ?]]; [by left |]. right. split; [done |].
          by exists ts.
        + intros [? | (? & ts' & [= <-] & ?)]; auto.
      - split; [done |]. intros x. split; [by left |].
        by intros [? | (_ & ? & ? & _)]. }
    destruct Hstep as [Hnd1 Hmem1].
    split; [by auto |]. intros x. rewrite Hmem, Hmem1. split.
    + intros [[? | (? & ts & ? & ?)] | (? & m & ts & ? & ? & ?)].
      * by left.
      * right. split; [done |]. exists n, ts. split; [by left | done].
      * right. split; [done |]. exists m, ts. split; [by right | done].
    + intros [? | (? & m & ts & [-> | ?]%elem_of_cons & ? & ?)].
      * by left; left.
      * left. right. split; [done |]. by exists ts.
      * right. split; [done |]. by exists m, ts.
Qed.

Lemma occurrences_positive t notes n ts :
  n ∈ notes → tags n = Some ts → t ∈ ts →
  (1 ≤ TagIndex.occurrences t notes)%Z.
Proof.
  intros Hn Hts Ht. induction notes as [|m notes IH];
    [by apply elem_of_nil in Hn |].
  simpl. pose proof (occurrences_nonneg t notes).
  apply elem_of_cons in Hn as [<- | Hn].
  - unfold TagIndex.occurrences_in. rewrite Hts.
    apply list_elem_of_In in Ht.
    apply (count_occ_In string_dec) in Ht. lia.
  - specialize (IH Hn). unfold TagIndex.occurrences_in.
    destruct (tags m); lia.
Qed.

(** X15: the tag list built when notes are loaded names each non-empty
    tag of the notes once and nothing else; every tag in it has a usage
    count of at least one (for tags that are not names of inherited
    members). *)
Theorem collectTags_lists_each_tag_once notes :
  NoDup (collectTags notes) ∧
  (∀ t, t ∈ collectTags notes ↔
        t ≠ "" ∧ ∃ n ts, n ∈ notes ∧ tags n = Some ts ∧ t ∈ ts) ∧
  (TagIndex.plain_tags notes →
   ∀ t, t ∈ collectTags notes →
        ∃ k, (1 ≤ k)%Z ∧
             TagIndex.calculateTagUsage notes !! t = Some (TagIndex.VNum k)).
Proof.
  destruct (collect_spec notes []) as [Hnd Hmem].
  assert (Hmem' : ∀ t, t ∈ collectTags notes ↔
            t ≠ "" ∧ ∃ n ts, n ∈ notes ∧ tags n = Some ts ∧ t ∈ ts).
  { intros t. unfold collectTags. rewrite Hmem. split; [| by right].
    by intros [[]%elem_of_nil | ?]. }
  split; [apply Hnd, NoDup_nil_2 |]. split; [exact Hmem' |].
  intros Hplain t (_ & n & ts & Hn & Hts & Ht)%Hmem'.
  exists (TagIndex.occurrences t notes).
  pose proof (occurrences_positive t notes n ts Hn Hts Ht) as Hpos.
  split; [done |]. unfold TagIndex.calculateTagUsage.
  rewrite (fold_notes_lookup notes Hplain ∅ (λ _, 0%Z)); [| done |].
  - simpl. unfold TagIndex.shown. by rewrite decide_False by lia.
  - intros t'. by rewrite lookup_empty.
Qed.

End CollectedTags.

(** ** The filter sheet *)

Section FilterSheet.
Import Pipeline.
Context `{Engine}.

Implicit Types (f prev : FilterOptions) (tag t : string).

Lemma elem_of_filter_neq (l : list string) tag t :
  t ∈ List.filter (λ x, negb (String.eqb x tag)) l ↔ t ∈ l ∧ t ≠ tag.
Proof.
  rewrite !list_elem_of_In, filter_In.
  by rewrite negb_true_iff, String.eqb_neq.
Qed.

Lemma NoDup_filter_strings (p : string → bool) (l : list string) :
  NoDup l → NoDup (List.filter p l).
Proof.
  induction 1 as [|x l Hx Hnd IH]; simpl; [constructor |].
  destruct (p x); [| done]. constructor; [| done].
  intros Hin. apply Hx.
  apply list_elem_of_In, filter_In in Hin as [Hin _].
  by apply list_elem_of_In.
Qed.

Lemma filter_neq_absent (l : list string) tag :
  tag ∉ l → List.filter (λ x, negb (String.eqb x tag)) l = l.
Proof.
  induction l as [|x l IH]; [done |].
  rewrite not_elem_of_cons. intros [Hne Hl]. simpl.
  rewrite (proj2 (String.eqb_neq x tag)) by done. simpl. by rewrite IH.
Qed.

(** X16: tapping a tag in the filter sheet flips that tag and no other:
    it is selected afterwards exactly when it was not before, every other
    tag stays as it was, a selection without repeats stays without
    repeats, the other criteria are untouched, and tapping a tag that was
    not selected twice gives back the selection as it was. *)
Theorem toggleTag_flips_one_tag tag prev :
  (tag ∈ selectedTags (FilterModal.toggleTag tag prev)
   ↔ tag ∉ selectedTags prev) ∧
  (∀ t, t ≠ tag →
     t ∈ selectedTags (FilterModal.toggleTag tag prev)
     ↔ t ∈ selectedTags prev) ∧
  (NoDup (selectedTags prev) →
   NoDup (selectedTags (FilterModal.toggleTag tag prev))) ∧
  FilterModal.toggleTag tag prev
  = {| sortBy := sortBy prev; dateFilter := dateFilter prev;
       selectedTags := selectedTags (FilterModal.toggleTag tag prev);
       withTagsOnly := withTagsOnly prev;
       longNotesOnly := longNotesOnly prev |} ∧
  (tag ∉ selectedTags prev →
   FilterModal.toggleTag tag (FilterModal.toggleTag tag prev) = prev).
Proof.
  unfold FilterModal.toggleTag. simpl.
  case_bool_decide as Hin.
  - split; [|split; [|split; [|split]]].
    + rewrite elem_of_filter_neq. split; [by intros [_ ?] | done].
    + intros t Hne. rewrite elem_of_filter_neq. tauto.
    + apply NoDup_filter_strings.
    + done.
    + done.
  - split; [|split; [|split; [|split]]].
    + rewrite elem_of_app, list_elem_of_singleton. tauto.
    + intros t Hne. rewrite elem_of_app, list_elem_of_singleton. tauto.
    + intros Hnd. apply NoDup_app. split; [done |]. split.
      * by intros x Hx [-> | []%elem_of_nil]%elem_of_cons.
      * apply NoDup_singleton.
    + done.
    + intros _. rewrite bool_decide_eq_true_2
        by (rewrite elem_of_app, list_elem_of_singleton; by right).
      rewrite List.filter_app, (filter_neq_absent _ tag Hin). simpl.
      rewrite String.eqb_refl. simpl. rewrite app_nil_r.
      by destruct prev.
Qed.

(** The filter sheet reports active filters exactly when the criteria
    differ from the ones its reset button sets; the home screen reports
    them exactly when the sheet does or the search text is not blank. *)
Lemma active_filters_are_departures_from_reset f (q : string) :
  (FilterModal.hasActiveFilters f = false ↔ f = FilterModal.handleReset f) ∧
  HomeScreen.hasActiveFilters
    {| HomeScreen.searchQuery := q; HomeScreen.filters := f |}
  = negb (String.eqb (trim q) "") || FilterModal.hasActiveFilters f.
Proof.
  split.
  - unfold FilterModal.hasActiveFilters, FilterModal.handleReset.
    rewrite !orb_false_iff, !bool_decide_eq_false.
    destruct f as [s d sel w lg]; simpl. split.
    + intros ((((Hs & Hd) & Hsel) & ->) & ->).
      destruct sel; [| done].
      destruct (decide (s = recent)) as [-> |]; [| done].
      by destruct (decide (d = all)) as [-> |].
    + intros [= -> -> -> -> ->]. repeat split; auto.
  - unfold HomeScreen.hasActiveFilters, FilterModal.hasActiveFilters. simpl.
    destruct (negb (String.eqb (trim q) "")),
      (bool_decide (dateFilter f ≠ all)),
      (0 <? length (selectedTags f))%nat, (withTagsOnly f),
      (longNotesOnly f), (bool_decide (sortBy f ≠ recent)); done.
Qed.

End FilterSheet.

(** ** The note editor and the tag line *)

Section TagEditing.
Import Pipeline.
Context `{Engine}.

Implicit Types (ts : list string) (t tag typed : string).

Lemma addTag_spec ts typed :
  let st := NoteEditor.addTag ts typed in
  (NoteEditor.tags st = ts ∧ NoteEditor.tagInput st = typed) ∨
  (NoteEditor.tags st = (ts ++ [trim typed])%list ∧
   NoteEditor.tagInput st = "" ∧ NoteEditor.alert st = None ∧
   (trim typed ∉ ts) ∧ NoteEditor.well_formed (trim typed)).
Proof.
  unfold NoteEditor.addTag.
  destruct (truthy (trim typed) && negb (bool_decide (trim typed ∈ ts)) &&
            (String.length (trim typed) <=? 20)%nat) eqn:Hok.
  - right. simpl.
    apply andb_true_iff in Hok as [[Ht Hin]%andb_true_iff Hlen].
    apply truthy_spec in Ht. apply negb_true_iff, bool_decide_eq_false in Hin.
    apply Nat.leb_le in Hlen. by repeat split.
  - left. by destruct (20 <? _)%nat, (bool_decide _).
Qed.

(** X17: whatever is typed and removed in the note editor, the tag list
    never holds a tag twice, an empty tag, or a tag longer than 20
    characters; a tag that is removed is gone; and an attempt that shows
    an alert changes neither the list nor the input. *)
Theorem editor_tags_stay_distinct_and_well_formed
    (edits : list NoteEditor.Edit) ts :
  NoDup ts → Forall NoteEditor.well_formed ts →
  NoDup (fold_left NoteEditor.edit edits ts) ∧
  Forall NoteEditor.well_formed (fold_left NoteEditor.edit edits ts) ∧
  (∀ tag, tag ∉ NoteEditor.removeTag ts tag) ∧
  (∀ typed, NoteEditor.alert (NoteEditor.addTag ts typed) ≠ None →
     NoteEditor.tags (NoteEditor.addTag ts typed) = ts ∧
     NoteEditor.tagInput (NoteEditor.addTag ts typed) = typed).
Proof.
  intros Hnd Hwf. split; [|split; [|split]].
  - revert ts Hnd Hwf. induction edits as [|e edits IH]; intros ts Hnd Hwf;
      [done |].
    simpl. destruct e as [typed | tag]; simpl.
    + destruct (addTag_spec ts typed) as [[-> _] | (-> & _ & _ & Hin & Hok)].
      * by apply IH.
      * apply IH.
        -- apply NoDup_app. split; [done |]. split.
           ++ by intros x Hx [-> | []%elem_of_nil]%elem_of_cons.
           ++ apply NoDup_singleton.
        -- apply Forall_app. split; [done | by constructor].
    + apply IH.
      * by apply NoDup_filter_strings.
      * rewrite Forall_forall in Hwf. apply Forall_forall.
        intros x [Hx _]%elem_of_filter_neq. by apply Hwf.
  - revert ts Hnd Hwf. induction edits as [|e edits IH]; intros ts Hnd Hwf;
      [done |].
    simpl. destruct e as [typed | tag]; simpl.
    + destruct (addTag_spec ts typed) as [[-> _] | (-> & _ & _ & Hin & Hok)].
      * by apply IH.
      * apply IH.
        -- apply NoDup_app. split; [done |]. split.
           ++ by intros x Hx [-> | []%elem_of_nil]%elem_of_cons.
           ++ apply NoDup_singleton.
        -- apply Forall_app. split; [done | by constructor].
    + apply IH.
      * by apply NoDup_filter_strings.
      * rewrite Forall_forall in Hwf. apply Forall_forall.
        intros x [Hx _]%elem_of_filter_neq. by apply Hwf.
  - intros tag. unfold NoteEditor.removeTag.
    rewrite elem_of_filter_neq. by intros [_ ?].
  - intros typed Halert.
    destruct (addTag_spec ts typed) as [? | (_ & _ & Hnone & _)]; [done |].
    by destruct Halert.
Qed.

Lemma split_comma_free (x : string) :
  TagLine.comma_free x = true → TagLine.split_comma x = [x].
Proof.
  induction x as [|c x IH]; [done |]. simpl.
  intros [Hc Hx]%andb_true_iff. apply negb_true_iff in Hc.
  by rewrite Hc, (IH Hx).
Qed.

Lemma split_comma_app (x rest : string) :
  TagLine.comma_free x = true →
  TagLine.split_comma (x ++ String ","%char rest)
  = x :: TagLine.split_comma rest.
Proof.
  induction x as [|c x IH]; [done |]. simpl.
  intros [Hc Hx]%andb_true_iff. apply negb_true_iff in Hc.
  by rewrite Hc, (IH Hx).
Qed.

Lemma split_comma_join (x : string) ts :
  Forall (λ t, TagLine.comma_free t = true) (x :: ts) →
  TagLine.split_comma (TagLine.join (x :: ts))
  = x :: map (λ t, " " ++ t) ts.
Proof.
  revert x. induction ts as [|y ts IH]; intros x Hfree.
  - simpl. apply split_comma_free. by apply Forall_inv in Hfree.
  - apply Forall_cons in Hfree as [Hx Hrest].
    change (TagLine.join (x :: y :: ts))
      with (x ++ String ","%char (String " "%char (TagLine.join (y :: ts)))).
    rewrite split_comma_app by done.
    change (TagLine.split_comma (String " "%char (TagLine.join (y :: ts))))
      with (match TagLine.split_comma (TagLine.join (y :: ts)) with
            | piece :: pieces => String " "%char piece :: pieces
            | [] => [String " "%char EmptyString]
            end).
    by rewrite (IH y Hrest).
Qed.

Lemma processedTags_join ts :
  trim "" = "" → Forall TagLine.tidy ts →
  TagLine.processedTags (TagLine.join ts) = ts.
Proof.
  intros Hempty Htidy. unfold TagLine.processedTags.
  destruct ts as [|x ts]; [simpl; by rewrite Hempty |].
  rewrite split_comma_join
    by (eapply Forall_impl; [exact Htidy | by intros ? (_ & ? & _)]).
  apply Forall_cons in Htidy as [(Hx & _ & Htx & _) Hts].
  simpl. rewrite Htx.
  destruct x as [|c x]; [done |]. simpl. f_equal.
  induction Hts as [|y ts (Hy & _ & _ & Hty) _ IH]; [done |].
  simpl. rewrite Hty. destruct y as [|d y]; [done |]. simpl. by rewrite IH.
Qed.

(** X18: a tag line written from a list of tags reads back as that list:
    [processedTags] of the tags joined with ", " gives the tags again, for
    tags that are not empty, hold no comma and are left alone by [trim];
    so removing a tag on the create screen leaves a line that reads as the
    former tags without it. *)
Theorem tag_line_round_trip ts (line t : string) :
  trim "" = "" →
  (Forall TagLine.tidy ts →
   TagLine.processedTags (TagLine.join ts) = ts) ∧
  (Forall TagLine.tidy (TagLine.processedTags line) →
   TagLine.processedTags (TagLine.removeTag line t)
   = List.filter (λ tag, negb (String.eqb tag t))
       (TagLine.processedTags line)) ∧
  Forall (λ tag, tag ≠ "") (TagLine.processedTags line).
Proof.
  intros Hempty. split; [|split].
  - by apply processedTags_join.
  - intros Htidy. unfold TagLine.removeTag.
    apply processedTags_join; [done |].
    rewrite Forall_forall in Htidy. apply Forall_forall.
    intros x Hx. apply Htidy.
    apply list_elem_of_In, filter_In in Hx as [Hx _].
    by apply list_elem_of_In.
  - unfold TagLine.processedTags. apply Forall_forall.
    intros x Hx. apply list_elem_of_In, filter_In in Hx as [_ Hlen].
    apply Nat.ltb_lt in Hlen. intros ->. simpl in Hlen. lia.
Qed.

End TagEditing.

(** ** The note card *)

Section NoteCardFacts.
Import Pipeline.
Context `{Engine}.
Variable toLocaleDateString : option Z → string.

(** X19: the age label of a note card: "Just now" for anything younger
    than an hour, also a date in the future; whole hours, 1 to 23, up to a
    day; whole days, 1 to 6, up to a week; the locale date from a week on,
    and also for a date that does not parse. *)
Theorem formatDate_labels now (s : string) :
  (∀ t, Date_parse s = Some t →
     let age := (now - t)%Z in
     ((age < hour)%Z →
      NoteCard.formatDate toLocaleDateString now s = "Just now") ∧
     ((hour ≤ age < 24 * hour)%Z →
      NoteCard.formatDate toLocaleDateString now s
      = pretty (age / hour)%Z ++ "h ago" ∧
      (1 ≤ age / hour ≤ 23)%Z) ∧
     ((24 * hour ≤ age < 168 * hour)%Z →
      NoteCard.formatDate toLocaleDateString now s
      = pretty (age / hour / 24)%Z ++ "d ago" ∧
      (1 ≤ age / hour / 24 ≤ 6)%Z) ∧
     ((168 * hour ≤ age)%Z →
      NoteCard.formatDate toLocaleDateString now s
      = toLocaleDateString (Some t))) ∧
  (Date_parse s = None →
   NoteCard.formatDate toLocaleDateString now s = toLocaleDateString None).
Proof.
  split.
  - intros t Ht age. unfold NoteCard.formatDate, NoteCard.hours, minus.
    rewrite Ht. simpl. fold age.
    change (1000 * 60 * 60)%Z with hour.
    assert (Hh : (hour = 3600000)%Z) by reflexivity.
    assert (Hdiv : ∀ k, (k * hour ≤ age → k ≤ age / hour)%Z).
    { intros k Hk. apply Z.div_le_lower_bound; lia. }
    assert (Hdiv' : ∀ k, (age < k * hour → age / hour < k)%Z).
    { intros k Hk. apply Z.div_lt_upper_bound; lia. }
    split; [|split; [|split]].
    + intros Hage. specialize (Hdiv' 1%Z ltac:(lia)).
      destruct (Z.ltb_spec (age / hour) 1); [done | lia].
    + intros [Hlo Hhi].
      specialize (Hdiv 1%Z ltac:(lia)). specialize (Hdiv' 24%Z ltac:(lia)).
      destruct (Z.ltb_spec (age / hour) 1); [lia |].
      destruct (Z.ltb_spec (age / hour) 24); [| lia].
      split; [done | lia].
    + intros [Hlo Hhi].
      specialize (Hdiv 24%Z ltac:(lia)). specialize (Hdiv' 168%Z ltac:(lia)).
      destruct (Z.ltb_spec (age / hour) 1); [lia |].
      destruct (Z.ltb_spec (age / hour) 24); [lia |].
      destruct (Z.ltb_spec (age / hour) 168); [| lia].
      split; [done |]. split.
      * apply Z.div_le_lower_bound; lia.
      * assert (age / hour / 24 < 7)%Z; [| lia].
        apply Z.div_lt_upper_bound; lia.
    + intros Hlo. specialize (Hdiv 168%Z ltac:(lia)).
      destruct (Z.ltb_spec (age / hour) 1); [lia |].
      destruct (Z.ltb_spec (age / hour) 24); [lia |].
      destruct (Z.ltb_spec (age / hour) 168); [lia | done].
  - intros Hnone. unfold NoteCard.formatDate, NoteCard.hours, minus.
    by rewrite Hnone.
Qed.

(** X20: the accent of a note card is always one of the eight colours,
    never missing, and titles of the same length modulo eight get the same
    one. *)
Theorem getCardAccent_in_palette (title title' : string) :
  (∃ c, NoteCard.getCardAccent title = Some c ∧ c ∈ NoteCard.colors) ∧
  ((String.length title mod 8 = String.length title' mod 8)%nat →
   NoteCard.getCardAccent title = NoteCard.getCardAccent title').
Proof.
  unfold NoteCard.getCardAccent. split.
  - assert (Hlt : (String.length title mod length NoteCard.colors
                   < length NoteCard.colors)%nat).
    { apply Nat.mod_upper_bound. simpl. lia. }
    apply lookup_lt_is_Some in Hlt as [c Hc].
    exists c. split; [done |]. by eapply list_elem_of_lookup_2.
  - intros Heq. simpl length. by rewrite Heq.
Qed.

End NoteCardFacts.

(** ** Concrete runs *)



Lemma recent_mostEdited_identical_witness :
  let h : gmap nat (list Note) :=
    {[ 0%nat := [Scenario.stale; Scenario.zeta; Scenario.alpha] ]} in
  Forall (λ n, is_Some (Date_parse (updated_at n)))
    (Pipeline.elements 0%nat h) ∧
  Pipeline.output (Pipeline.sortNotes 0%nat Pipeline.mostEdited) h
  = [Scenario.alpha; Scenario.zeta; Scenario.stale] ∧
  Pipeline.sortNotes 0%nat Pipeline.recent h
  = Pipeline.sortNotes 0%nat Pipeline.mostEdited h.
Proof.
  intros h.
  assert (Hp : Forall (λ n, is_Some (Date_parse (updated_at n)))
                 (Pipeline.elements 0%nat h)).
  { change (Pipeline.elements 0%nat h)
      with [Scenario.stale; Scenario.zeta; Scenario.alpha].
    repeat constructor; by eexists; vm_compute. }
  split; [exact Hp |].
  destruct (recent_mostEdited_identical Scenario.now 0%nat ""
              Scenario.no_filters h) as (Hsame & _ & _ & Hsorted).
  split; [| exact Hsame].
  rewrite (proj1 (Hsorted Hp)). by vm_compute.
Defined.

Lemma failed_operation_changes_nothing_witness :
  let op := Effects.Update (Some "n4")
              {| Repository.patch_title := Some "Kept";
                 Repository.patch_body := None;
                 Repository.patch_tags := None |} in
  Effects.failure Scenario.reachable op Scenario.table
  = Some "Note not found" ∧
  Effects.table_after Scenario.reachable op Scenario.table = Scenario.table.
Proof.
  intros op.
  assert (Hfail : Effects.failure Scenario.reachable op Scenario.table
                  = Some "Note not found") by (by vm_compute).
  split; [exact Hfail |].
  apply (failed_operation_changes_nothing Scenario.reachable op
           Scenario.table "Note not found" Hfail).
Defined.

Lemma operations_keep_ids_unique_witness :
  let op := Effects.Create
              {| Repository.in_title := " Groceries ";
                 Repository.in_body := "milk"; Repository.in_tags := None |} in
  NoDup (map id Scenario.table) ∧
  NoDup (map id (Effects.table_after Scenario.reachable op Scenario.table)) ∧
  map id (Effects.table_after Scenario.reachable op Scenario.table)
  = ["n1"; "n2"; "n4"; "n5"].
Proof.
  intros op.
  assert (Hnd : NoDup (map id Scenario.table)).
  { by apply (bool_decide_unpack _); vm_compute. }
  split; [exact Hnd |]. split; [| by vm_compute].
  apply (operations_keep_ids_unique Scenario.reachable op Scenario.table Hnd).
Defined.

Lemma updateNote_revises_one_note_witness :
  let patch := {| Repository.patch_title := Some " Zeta, revised ";
                  Repository.patch_body := None;
                  Repository.patch_tags := Some None |} in
  Store.fault Scenario.reachable = None ∧
  NoDup (map id Scenario.table) ∧
  Scenario.zeta ∈ Scenario.table ∧
  ¬ Effects.blank_title patch ∧
  fst (Repository.updateNote Scenario.reachable (Some "n1") patch
         Scenario.table)
  = Repository.Returned
      {| id := "n1"; title := "Zeta, revised";
         body := "last of the alphabet"; tags := None;
         created_at := "2024-05-07T12:00:00.000Z";
         updated_at := "2024-05-07T12:00:00.000Z";
         deleted_at := None |}.
Proof.
  intros patch.
  assert (Hf : Store.fault Scenario.reachable = None) by reflexivity.
  assert (Hnd : NoDup (map id Scenario.table)).
  { by apply (bool_decide_unpack _); vm_compute. }
  assert (Hin : Scenario.zeta ∈ Scenario.table).
  { by apply (bool_decide_unpack _); vm_compute. }
  assert (Hnb : ¬ Effects.blank_title patch).
  { intros (t & [= <-] & Ht). by vm_compute in Ht. }
  split; [exact Hf |]. split; [exact Hnd |]. split; [exact Hin |].
  split; [exact Hnb |].
  destruct (updateNote_revises_one_note Scenario.reachable patch
              Scenario.table Scenario.zeta Hf Hnd Hin) as (Hrun & _);
    [done | done | exact Hnb |].
  change (id Scenario.zeta) with "n1" in Hrun. rewrite Hrun.
  by vm_compute.
Defined.

Lemma updateNote_of_inactive_id_not_found_witness :
  let patch := {| Repository.patch_title := Some "Kept";
                  Repository.patch_body := None;
                  Repository.patch_tags := None |} in
  Store.fault Scenario.reachable = None ∧
  ¬ Effects.blank_title patch ∧
  Repository.updateNote Scenario.reachable (Some "n4") patch Scenario.table
  = (Repository.Thrown Repository.NotFoundError, Scenario.table).
Proof.
  intros patch.
  assert (Hf : Store.fault Scenario.reachable = None) by reflexivity.
  assert (Hnb : ¬ Effects.blank_title patch).
  { intros (t & [= <-] & Ht). by vm_compute in Ht. }
  split; [exact Hf |]. split; [exact Hnb |].
  apply (updateNote_of_inactive_id_not_found Scenario.reachable "n4" patch
           Scenario.table Hf); [done | exact Hnb |].
  intros m Hm Hid Hact. unfold Scenario.table in Hm.
  repeat (apply elem_of_cons in Hm as [-> | Hm]; [done |]).
  by apply elem_of_nil in Hm.
Defined.

Lemma createNote_then_getNote_witness :
  let input := {| Repository.in_title := " Groceries ";
                  Repository.in_body := " milk, eggs";
                  Repository.in_tags := Some ["home"] |} in
  Store.fault Scenario.reachable = None ∧
  NoDup (map id Scenario.table) ∧
  (Store.generated_id Scenario.reachable ∉ map id Scenario.table) ∧
  trim (Repository.in_title input) ≠ "" ∧
  ∃ n,
    fst (Repository.createNote Scenario.reachable input Scenario.table)
    = Repository.Returned n ∧
    title n = "Groceries" ∧ body n = "milk, eggs" ∧ id n = "n5" ∧
    fst (Repository.getNote Scenario.reachable (Some "n5")
           (Scenario.table ++ [n])%list)
    = Repository.Returned n.
Proof.
  intros input.
  assert (Hf : Store.fault Scenario.reachable = None) by reflexivity.
  assert (Hnd : NoDup (map id Scenario.table)).
  { by apply (bool_decide_unpack _); vm_compute. }
  assert (Hfresh : Store.generated_id Scenario.reachable
                   ∉ map id Scenario.table).
  { by apply (bool_decide_unpack _); vm_compute. }
  assert (Ht : trim (Repository.in_title input) ≠ "") by (by vm_compute).
  split; [exact Hf |]. split; [exact Hnd |]. split; [exact Hfresh |].
  split; [exact Ht |].
  destruct (createNote_then_getNote Scenario.reachable Scenario.reachable
              input Scenario.table Hf Hf Hnd)
    as (n & Hrun & Hid & Htitle & Hbody & _ & _ & _ & Hget);
    [done | exact Hfresh | exact Ht |].
  exists n. rewrite Hrun, Htitle, Hbody, Hid.
  split; [done |]. split; [by vm_compute |]. split; [by vm_compute |].
  split; [done |].
  change "n5" with (Store.generated_id Scenario.reachable).
  by rewrite <- Hid, Hget.
Defined.

Lemma deleteNote_twice_is_once_witness :
  Store.fault Scenario.reachable = None ∧
  ∃ rows1,
    Repository.deleteNote Scenario.reachable "2024-05-10T12:00:00.000Z"
      (Some "n1") Scenario.table = (Repository.Returned true, rows1) ∧
    Repository.deleteNote Scenario.reachable "2024-05-11T09:30:00.000Z"
      (Some "n1") rows1 = (Repository.Returned true, rows1).
Proof.
  assert (Hf : Store.fault Scenario.reachable = None) by reflexivity.
  split; [exact Hf |].
  apply (deleteNote_twice_is_once Scenario.reachable Scenario.reachable
           "2024-05-10T12:00:00.000Z" "2024-05-11T09:30:00.000Z" "n1"
           Scenario.table); done.
Defined.

Lemma permanentlyDeleteNote_removes_for_good_witness :
  Store.fault Scenario.reachable = None ∧
  Purge.permanentlyDeleteNote Scenario.reachable (Some "n4") Scenario.table
  = (Repository.Returned true, [Scenario.zeta; Scenario.alpha]) ∧
  Purge.permanentlyDeleteNote Scenario.reachable (Some "n9") Scenario.table
  = (Repository.Returned true, Scenario.table).
Proof.
  assert (Hf : Store.fault Scenario.reachable = None) by reflexivity.
  split; [exact Hf |].
  destruct (permanentlyDeleteNote_removes_for_good Scenario.reachable
              Scenario.reachable "n4" Scenario.table) as (Hrun & _);
    [done | done | done |].
  destruct (permanentlyDeleteNote_removes_for_good Scenario.reachable
              Scenario.reachable "n9" Scenario.table) as (Hrun' & _);
    [done | done | done |].
  split; [by rewrite Hrun | by rewrite Hrun'].
Defined.

Lemma deleteNote_hides_note_from_list_witness :
  Store.fault Scenario.reachable = None ∧
  NoDup (map id Scenario.table) ∧
  Scenario.zeta ∈ Scenario.table ∧
  ∃ rows1 shown,
    Repository.deleteNote Scenario.reachable "2024-05-10T12:00:00.000Z"
      (Some "n1") Scenario.table = (Repository.Returned true, rows1) ∧
    Repository.listNotes Scenario.reachable rows1
    = (Repository.Returned shown, rows1) ∧
    (∀ m, m ∈ shown ↔
          m ∈ Scenario.table ∧ Repository.active m ∧ m ≠ Scenario.zeta) ∧
    map id rows1 = ["n1"; "n2"; "n4"].
Proof.
  assert (Hf : Store.fault Scenario.reachable = None) by reflexivity.
  assert (Hnd : NoDup (map id Scenario.table)).
  { by apply (bool_decide_unpack _); vm_compute. }
  assert (Hin : Scenario.zeta ∈ Scenario.table).
  { by apply (bool_decide_unpack _); vm_compute. }
  split; [exact Hf |]. split; [exact Hnd |]. split; [exact Hin |].
  destruct (deleteNote_hides_note_from_list Scenario.reachable
              Scenario.reachable "2024-05-10T12:00:00.000Z" Scenario.table
              Scenario.zeta Hf Hf Hnd Hin)
    as (rows1 & shown & H1 & H2 & H3 & _ & H5); [done | done |].
  by exists rows1, shown.
Defined.

Lemma pipeline_output_in_time_order_witness :
  Forall (λ n, is_Some (Date_parse (updated_at n)) ∧
               is_Some (Date_parse (created_at n)))
    (Pipeline.elements 0%nat Scenario.heap) ∧
  StronglySorted
    (λ x y, (Shown.stamp (updated_at y) ≤ Shown.stamp (updated_at x))%Z)
    (Pipeline.output
       (Pipeline.applyFiltersAndSort Scenario.now 0%nat ""
          Scenario.no_filters) Scenario.heap).
Proof.
  assert (Hp : Forall (λ n, is_Some (Date_parse (updated_at n)) ∧
                            is_Some (Date_parse (created_at n)))
                 (Pipeline.elements 0%nat Scenario.heap)).
  { change (Pipeline.elements 0%nat Scenario.heap)
      with [Scenario.zeta; Scenario.alpha].
    repeat constructor; by eexists; vm_compute. }
  split; [exact Hp |].
  apply (pipeline_output_in_time_order Scenario.now 0%nat ""
           Scenario.no_filters Scenario.heap Hp). by left.
Defined.

Lemma sortNotes_is_stable_witness :
  let twin := {| id := "n7"; title := "Twin"; body := ""; tags := None;
                 created_at := "2024-05-08T12:00:00.000Z";
                 updated_at := "2024-05-07T12:00:00.000Z";
                 deleted_at := None |} in
  let h : gmap nat (list Note) :=
    {[ 0%nat := [Scenario.zeta; Scenario.alpha; twin] ]} in
  Forall (λ n, is_Some (Date_parse (updated_at n)))
    (Pipeline.elements 0%nat h) ∧
  Pipeline.output (Pipeline.sortNotes 0%nat Pipeline.recent) h
  = [Scenario.alpha; Scenario.zeta; twin] ∧
  List.filter
    (λ n, bool_decide (Date_parse (updated_at n) = Some 1715083200000%Z))
    (Pipeline.output (Pipeline.sortNotes 0%nat Pipeline.recent) h)
  = [Scenario.zeta; twin].
Proof.
  intros twin h.
  assert (Hp : Forall (λ n, is_Some (Date_parse (updated_at n)))
                 (Pipeline.elements 0%nat h)).
  { change (Pipeline.elements 0%nat h)
      with [Scenario.zeta; Scenario.alpha; twin].
    repeat constructor; by eexists; vm_compute. }
  split; [exact Hp |]. split; [by vm_compute |].
  rewrite (proj1 (sortNotes_is_stable 0%nat h 1715083200000%Z) Hp
             Pipeline.recent (or_introl eq_refl)).
  by vm_compute.
Defined.

Lemma pipeline_shows_exactly_the_matching_notes_witness :
  let f := {| Pipeline.sortBy := Pipeline.recent;
              Pipeline.dateFilter := Pipeline.all;
              Pipeline.selectedTags := ["greek"];
              Pipeline.withTagsOnly := true;
              Pipeline.longNotesOnly := false |} in
  Pipeline.withTagsOnly f = true ∧
  Pipeline.output
    (Pipeline.applyFiltersAndSort Scenario.now 0%nat "ZET" f) Scenario.heap
  = [Scenario.zeta] ∧
  Shown.tagged Scenario.zeta.
Proof.
  intros f. split; [done |].
  assert (Hout : Pipeline.output
                   (Pipeline.applyFiltersAndSort Scenario.now 0%nat "ZET" f)
                   Scenario.heap = [Scenario.zeta]) by (by vm_compute).
  split; [exact Hout |].
  destruct (pipeline_shows_exactly_the_matching_notes Scenario.now 0%nat
              "ZET" f Scenario.heap) as [Hmem _].
  destruct (proj1 (Hmem Scenario.zeta)) as (_ & _ & _ & _ & Htagged & _).
  - rewrite Hout. by left.
  - by apply Htagged.
Defined.

Lemma no_active_filters_shows_every_note_witness :
  let c := {| HomeScreen.searchQuery := "  ";
              HomeScreen.filters := HomeScreen.default_filters |} in
  HomeScreen.hasActiveFilters c = false ∧
  trim "" = "" ∧
  Pipeline.output
    (Pipeline.applyFiltersAndSort Scenario.now 0%nat
       (HomeScreen.searchQuery c) (HomeScreen.filters c)) Scenario.heap
  ≡ₚ Pipeline.elements 0%nat Scenario.heap ∧
  HomeScreen.hasActiveFilters (HomeScreen.clearAllFilters c) = false.
Proof.
  intros c.
  assert (Hc : HomeScreen.hasActiveFilters c = false) by (by vm_compute).
  assert (Ht : trim "" = "") by reflexivity.
  split; [exact Hc |]. split; [exact Ht |].
  destruct (no_active_filters_shows_every_note Scenario.now 0%nat c
              Scenario.heap) as [Hall Hclear].
  split; [exact (proj1 (proj2 (Hall Hc))) | by apply Hclear].
Defined.

Lemma collectTags_lists_each_tag_once_witness :
  TagIndex.plain_tags TagIndex.scenario ∧
  HomeScreen.collectTags TagIndex.scenario = ["a"; "b"] ∧
  ∃ k, (1 ≤ k)%Z ∧
       TagIndex.calculateTagUsage TagIndex.scenario !! "a"
       = Some (TagIndex.VNum k).
Proof.
  assert (Hp : TagIndex.plain_tags TagIndex.scenario).
  { repeat constructor; by vm_compute. }
  split; [exact Hp |]. split; [by vm_compute |].
  destruct (collectTags_lists_each_tag_once TagIndex.scenario)
    as (_ & _ & Hcount).
  apply (Hcount Hp "a"). by apply (bool_decide_unpack _); vm_compute.
Defined.

Lemma toggleTag_flips_one_tag_witness :
  ("work" ∉ Pipeline.selectedTags Scenario.no_filters) ∧
  FilterModal.toggleTag "work"
    (FilterModal.toggleTag "work" Scenario.no_filters)
  = Scenario.no_filters ∧
  Pipeline.selectedTags (FilterModal.toggleTag "work" Scenario.no_filters)
  = ["work"].
Proof.
  assert (Hout : "work" ∉ Pipeline.selectedTags Scenario.no_filters).
  { by apply (bool_decide_unpack _); vm_compute. }
  split; [exact Hout |]. split; [| by vm_compute].
  destruct (toggleTag_flips_one_tag "work" Scenario.no_filters)
    as (_ & _ & _ & _ & Htwice).
  by apply Htwice.
Defined.

Lemma editor_tags_stay_distinct_and_well_formed_witness :
  let edits := [NoteEditor.Add " work "; NoteEditor.Add "work";
                NoteEditor.Add "a tag of more than twenty characters";
                NoteEditor.Add "home"; NoteEditor.Remove "idea"] in
  NoDup ["idea"] ∧ Forall NoteEditor.well_formed ["idea"] ∧
  fold_left NoteEditor.edit edits ["idea"] = ["work"; "home"] ∧
  NoDup (fold_left NoteEditor.edit edits ["idea"]).
Proof.
  intros edits.
  assert (Hnd : NoDup ["idea"]) by (by apply (bool_decide_unpack _); vm_compute).
  assert (Hwf : Forall NoteEditor.well_formed ["idea"]).
  { apply Forall_cons. split; [| constructor].
    split; [done | simpl; lia]. }
  split; [exact Hnd |]. split; [exact Hwf |]. split; [by vm_compute |].
  apply (editor_tags_stay_distinct_and_well_formed edits ["idea"] Hnd Hwf).
Defined.

Lemma tag_line_round_trip_witness :
  trim "" = "" ∧
  Forall TagLine.tidy ["work"; "home"; "to do"] ∧
  TagLine.join ["work"; "home"; "to do"] = "work, home, to do" ∧
  TagLine.processedTags "work, home, to do" = ["work"; "home"; "to do"].
Proof.
  assert (Ht : trim "" = "") by reflexivity.
  assert (Htidy : Forall TagLine.tidy ["work"; "home"; "to do"]).
  { repeat constructor; by vm_compute. }
  split; [exact Ht |]. split; [exact Htidy |]. split; [reflexivity |].
  destruct (tag_line_round_trip ["work"; "home"; "to do"] "" "" Ht)
    as [Hback _].
  exact (Hback Htidy).
Defined.

Lemma formatDate_labels_witness :
  Date_parse "2024-05-07T12:00:00.000Z" = Some 1715083200000%Z ∧
  (24 * Pipeline.hour ≤ Scenario.now - 1715083200000
   < 168 * Pipeline.hour)%Z ∧
  NoteCard.formatDate (λ _, "5/7/2024") Scenario.now
    "2024-05-07T12:00:00.000Z" = "3d ago".
Proof.
  assert (Hp : Date_parse "2024-05-07T12:00:00.000Z"
               = Some 1715083200000%Z) by (by vm_compute).
  assert (Hage : (24 * Pipeline.hour ≤ Scenario.now - 1715083200000
                  < 168 * Pipeline.hour)%Z) by (by vm_compute).
  split; [exact Hp |]. split; [exact Hage |].
  destruct (formatDate_labels (λ _, "5/7/2024") Scenario.now
              "2024-05-07T12:00:00.000Z") as [Hlabels _].
  destruct (Hlabels _ Hp) as (_ & _ & Hdays & _).
  destruct (Hdays Hage) as [-> _]. by vm_compute.
Defined.

Lemma getCardAccent_in_palette_witness :
  (String.length "Zeta" mod 8 = String.length "Twelve chars" mod 8)%nat ∧
  NoteCard.getCardAccent "Zeta" = NoteCard.getCardAccent "Twelve chars" ∧
  NoteCard.getCardAccent "Zeta" = Some "#ef4444".
Proof.
  assert (Hlen : (String.length "Zeta" mod 8
                  = String.length "Twelve chars" mod 8)%nat) by reflexivity.
  split; [exact Hlen |]. split; [| reflexivity].
  apply (getCardAccent_in_palette "Zeta" "Twelve chars"), Hlen.
Defined.
